(** * actspy: terminal activity reporter

    A shallow embedding of [actspy.c] and the properties of its option
    parsing, user filter, scan loop and poll loop.

    Conventions of the embedding:
    - a C [int], [long] or [time_t] is a [Z];
    - a C string is a [string]: the characters before the terminating
      NUL.  Functions that read a C string stop at an embedded NUL, as the
      C functions do;
    - a [char] array in a record is the text it was filled with; a C
      string read from it runs on into the arrays that follow when it is
      full;
    - a NULL-terminated array of C strings ([argv], [watched_users]) is a
      [list string];
    - a pointer that may be NULL is an [option];
    - the library calls the program makes ([getopt], [sscanf], [ttyname],
      [time], [ctime], [sleep], [getutxent], [stat]) are modelled after
      POSIX; what they return from the outside world is read from an
      explicit environment. *)

From Stdlib Require Import ZArith List String Ascii Bool Lia.
Import ListNotations.

Local Open Scope string_scope.
Local Open Scope list_scope.
Local Open Scope Z_scope.

(** ** C characters and strings *)

Module CString.

(** The value of a [char] converted to [unsigned char] and then [int]. *)
Definition chr (c : ascii) : Z := Z.of_N (N_of_ascii c).

(** [strcmp]: compares byte by byte, stops at the first difference or at
    the terminating NUL.  The end of the Rocq string is where the NUL
    sits. *)
Fixpoint strcmp (s1 s2 : string) : Z :=
  match s1, s2 with
  | EmptyString, EmptyString => 0
  | EmptyString, String c2 _ => 0 - chr c2
  | String c1 _, EmptyString => chr c1
  | String c1 t1, String c2 t2 =>
      if chr c1 =? chr c2
      then (if chr c1 =? 0 then 0 else strcmp t1 t2)
      else chr c1 - chr c2
  end.

(** [strlen]. *)
Fixpoint strlen (s : string) : nat :=
  match s with
  | EmptyString => 0
  | String c t => if chr c =? 0 then 0%nat else S (strlen t)
  end.

(** The first [n] characters of [s], up to a NUL. *)
Fixpoint strntake (n : nat) (s : string) : string :=
  match n, s with
  | O, _ => EmptyString
  | _, EmptyString => EmptyString
  | S k, String c t => if chr c =? 0 then EmptyString else String c (strntake k t)
  end.

(** [strncat(dest, src, n)]: appends at most [n] characters of [src]. *)
Definition strncat (dest src : string) (n : nat) : string :=
  (dest ++ strntake n src)%string.

(** A well-formed C string value: no NUL among its characters. *)
Fixpoint cstring (s : string) : Prop :=
  match s with
  | EmptyString => True
  | String c t => chr c <> 0 /\ cstring t
  end.

(** The string left by [s[strlen(s) - 1] = 0]: all characters but the
    last. *)
Definition chop (s : string) : string := strntake (strlen s - 1) s.

End CString.
Import CString.

(** ** strstrlist and the user filter (actspy.c, lines 46-58 and 182-186) *)

(** [strstrlist(haystack, needle)]: the first entry of [haystack] that
    [strcmp] finds equal to [needle], or NULL. *)
Fixpoint strstrlist (haystack : list string) (needle : string) : option string :=
  match haystack with
  | [] => None
  | h :: rest => if strcmp h needle =? 0 then Some h else strstrlist rest needle
  end.

(** The test of lines 182-184,
    [*watched_users && !strstrlist(watched_users, ut_user)]:
    true when the session is skipped. *)
Definition user_skipped (watched_users : list string) (ut_user : string) : bool :=
  match watched_users with
  | [] => false
  | _ :: _ =>
      match strstrlist watched_users ut_user with
      | Some _ => false
      | None => true
      end
  end.

Definition user_passes (watched_users : list string) (ut_user : string) : bool :=
  negb (user_skipped watched_users ut_user).


(** ** Command line options (actspy.c, lines 60-135) *)

Record options := mk_options {
  poll_interval : Z;                      (* time_t *)
  watch_input : Z;                        (* int *)
  watch_output : Z;                       (* int *)
  bell : Z;                               (* int *)
  watched_users : option (list string)    (* char **, NULL until parsing is over *)
}.

Definition set_poll_interval (v : Z) (o : options) : options :=
  mk_options v (watch_input o) (watch_output o) (bell o) (watched_users o).
Definition set_watch_input (v : Z) (o : options) : options :=
  mk_options (poll_interval o) v (watch_output o) (bell o) (watched_users o).
Definition set_watch_output (v : Z) (o : options) : options :=
  mk_options (poll_interval o) (watch_input o) v (bell o) (watched_users o).
Definition set_bell (v : Z) (o : options) : options :=
  mk_options (poll_interval o) (watch_input o) (watch_output o) v (watched_users o).
Definition set_watched_users (v : option (list string)) (o : options) : options :=
  mk_options (poll_interval o) (watch_input o) (watch_output o) (bell o) v.

(** What the program does to the outside world, in order. *)
Inductive event :=
| Stdout (text : string)     (* printf *)
| Stderr (text : string)     (* fprintf(stderr, ...) *)
| Clock (t : Z)              (* time(NULL) returned t *)
| Sleep (seconds : Z).       (* sleep(seconds), an unsigned int *)

Definition nl : string := String "010" "".
Definition bel : string := String "007" "".

(** *** getopt, after POSIX

    [optind] is the index of the next element of [argv]; [nextchar] holds
    the option characters of the current element that are still to be
    read.  [opterr] is 0 (line 84), so [getopt] prints nothing itself.  The
    option string of the program does not start with a colon, so a missing
    argument is reported as '?'.  Operands are not permuted: the first
    operand ends the options. *)
Record getopt_state := mk_getopt {
  optind : nat;
  nextchar : string;
  optarg : option string;
  optopt : Z
}.

Definition getopt_init : getopt_state := mk_getopt 1 "" None (chr "?").

(** Whether [c] is an option character of [optstring], and if so whether
    it takes an argument. *)
Fixpoint optstring_lookup (c : ascii) (optstring : string) : option bool :=
  match optstring with
  | EmptyString => None
  | String o rest =>
      if Ascii.eqb c o
      then Some (match rest with
                 | String o' _ => Ascii.eqb o' ":"
                 | EmptyString => false
                 end)
      else optstring_lookup c rest
  end.

(** The state once the character before [rest] has been read. *)
Definition getopt_advance (g : getopt_state) (rest : string) : getopt_state :=
  match rest with
  | EmptyString => mk_getopt (S (optind g)) "" (optarg g) (optopt g)
  | String _ _ => mk_getopt (optind g) rest (optarg g) (optopt g)
  end.

(** [getopt] on the option character [c], followed by [rest] in its
    element of [argv]. *)
Definition getopt_char (argv : list string) (optstring : string)
    (g : getopt_state) (c : ascii) (rest : string) : Z * getopt_state :=
  match (if Ascii.eqb c ":" then None else optstring_lookup c optstring) with
  | None =>
      let g' := getopt_advance g rest in
      (chr "?", mk_getopt (optind g') (nextchar g') (optarg g') (chr c))
  | Some false => (chr c, getopt_advance g rest)
  | Some true =>
      match rest with
      | String _ _ => (chr c, mk_getopt (S (optind g)) "" (Some rest) (optopt g))
      | EmptyString =>
          match nth_error argv (S (optind g)) with
          | Some a => (chr c, mk_getopt (S (S (optind g))) "" (Some a) (optopt g))
          | None => (chr "?", mk_getopt (S (optind g)) "" (optarg g) (chr c))
          end
      end
  end.

Definition getopt (argv : list string) (optstring : string)
    (g : getopt_state) : Z * getopt_state :=
  match nextchar g with
  | String c rest => getopt_char argv optstring g c rest
  | EmptyString =>
      match nth_error argv (optind g) with
      | Some (String d (String c rest)) =>
          if Ascii.eqb d "-"
          then (if Ascii.eqb c "-" && String.eqb rest ""
                then (-1, mk_getopt (S (optind g)) "" (optarg g) (optopt g))
                else getopt_char argv optstring g c rest)
          else (-1, g)
      | _ => (-1, g)
      end
  end.

(** *** sscanf with the format "%ld", after C99 7.19.6.2

    White space is skipped; an optional sign and then decimal digits are
    read.  The result is [EOF] when the input ends before anything
    else is read, 0 when no digit follows, and 1 once a number is
    stored.  A number out of the range of [long] is stored as the nearest
    bound, which is what [strtol] does. *)
Definition EOF : Z := -1.
Definition LONG_MAX : Z := 9223372036854775807.
Definition LONG_MIN : Z := -9223372036854775808.

Definition isspace (c : ascii) : bool :=
  (chr c =? 32) || ((9 <=? chr c) && (chr c <=? 13)).

Definition isdigit (c : ascii) : bool :=
  (48 <=? chr c) && (chr c <=? 57).

Fixpoint skip_space (s : string) : string :=
  match s with
  | EmptyString => EmptyString
  | String c t => if isspace c then skip_space t else s
  end.

(** The value of the leading digits of [s], after the digits of value
    [acc]. *)
Fixpoint scan_digits (acc : Z) (s : string) : Z :=
  match s with
  | EmptyString => acc
  | String c t => if isdigit c then scan_digits (10 * acc + (chr c - 48)) t else acc
  end.

Definition clamp_long (z : Z) : Z :=
  if z <? LONG_MIN then LONG_MIN else if LONG_MAX <? z then LONG_MAX else z.

(** Unsigned digits: [Some v] when [s] starts with a digit. *)
Definition scan_unsigned (s : string) : option Z :=
  match s with
  | EmptyString => None
  | String c _ => if isdigit c then Some (scan_digits 0 s) else None
  end.

(** [sscanf(s, "%ld", &x)]: the return value and what is stored in [x],
    if anything. *)
Definition sscanf_ld (s : string) : Z * option Z :=
  match skip_space s with
  | EmptyString => (EOF, None)
  | String c t =>
      if chr c =? 0 then (EOF, None)
      else if Ascii.eqb c "-" then
        match scan_unsigned t with
        | Some v => (1, Some (clamp_long (- v)))
        | None => (0, None)
        end
      else if Ascii.eqb c "+" then
        match scan_unsigned t with
        | Some v => (1, Some (clamp_long v))
        | None => (0, None)
        end
      else
        match scan_unsigned (String c t) with
        | Some v => (1, Some (clamp_long v))
        | None => (0, None)
        end
  end.

(** *** options_parse *)

Definition usage (argv0 : string) : string :=
  ("Usage: " ++ argv0 ++ " [-bhio] [-t TIME] [USER]..." ++ nl ++
   "  -b       Ring the bell when a TTY is active." ++ nl ++
   "  -h       Show this help." ++ nl ++
   "  -i       Show when a TTY receives input data." ++ nl ++
   "  -o       Show when a TTY sends output data." ++ nl ++
   "  -t TIME  Poll interval in seconds. Default and minimum 1." ++ nl ++
   "  USER     Limit polling to one or more users." ++ nl)%string.

Definition argv0 (argv : list string) : string := nth 0 argv "".

(** The defaults of lines 73-80. *)
Definition options_default : options := mk_options 1 0 0 0 None.

(** The [while] loop of lines 86-129.  [out] is what has been written so
    far.  The result is the value [options_parse] returns, or [None] when
    [fuel] calls of [getopt] were not enough. *)
Fixpoint options_parse_loop (fuel : nat) (argv : list string)
    (g : getopt_state) (o : options) (out : list event)
    : option (Z * options * list event) :=
  match fuel with
  | O => None
  | S fuel' =>
      let '(option_char, g') := getopt argv "bhiot:" g in
      if option_char =? -1 then
        (* lines 130-134 *)
        Some (0, set_watched_users (Some (skipn (optind g') argv)) o, out)
      else if option_char =? chr "b" then
        options_parse_loop fuel' argv g' (set_bell 1 o) out
      else if option_char =? chr "h" then
        Some (1, o, out ++ [Stdout (usage (argv0 argv))])
      else if option_char =? chr "i" then
        options_parse_loop fuel' argv g' (set_watch_input 1 o) out
      else if option_char =? chr "o" then
        options_parse_loop fuel' argv g' (set_watch_output 1 o) out
      else if option_char =? chr "t" then
        let arg := match optarg g' with Some a => a | None => "" end in
        let '(n, stored) := sscanf_ld arg in
        let o' := match stored with
                  | Some v => set_poll_interval v o
                  | None => o
                  end in
        if n =? 0 then
          Some (-1, o', out ++ [Stderr ("Invalid timestamp option -t " ++ arg ++ "." ++ nl)])
        else options_parse_loop fuel' argv g' o' out
      else if option_char =? chr "?" then
        if optopt g' =? chr "t" then
          Some (-1, o, out ++ [Stderr ("Option -t requires an argument." ++ nl)])
        else
          Some (-1, o, out ++ [Stderr ("Unknown command line option -" ++
                                       String (ascii_of_N (Z.to_N (optopt g'))) "." ++ nl)])
      else options_parse_loop fuel' argv g' o out
  end.

(** One more than the characters and the elements of [argv]: each call of
    [getopt] that does not end the loop consumes one of them. *)
Fixpoint argv_weight (argv : list string) : nat :=
  match argv with
  | [] => 0
  | a :: rest => S (String.length a + argv_weight rest)
  end.

Definition options_parse (argv : list string) : option (Z * options * list event) :=
  options_parse_loop (S (argv_weight argv)) argv getopt_init options_default [].

(** ** The poll loop (actspy.c, lines 137-201) *)

(** The two times of [struct stat] the program reads. *)
Record stat_t := mk_stat {
  st_atime : Z;
  st_mtime : Z
}.

Definition USER_PROCESS : Z := 7.
Definition UT_LINESIZE : nat := 32.
Definition UT_NAMESIZE : nat := 32.
Definition UT_HOSTSIZE : nat := 256.

(** The bytes of a [char] array of size [n] that was filled with the text
    [s]: the first [n] characters of [s], and NUL in what is left of the
    array. *)
Fixpoint array (n : nat) (s : string) : string :=
  match n with
  | O => EmptyString
  | S k =>
      match s with
      | EmptyString => String "000" (array k EmptyString)
      | String c t => String c (array k t)
      end
  end.

(** The C string that starts at the first byte of [mem]: the bytes before
    the first NUL. *)
Fixpoint until_nul (mem : string) : string :=
  match mem with
  | EmptyString => EmptyString
  | String c t => if chr c =? 0 then EmptyString else String c (until_nul t)
  end.

(** A record of the accounting file, [struct utmpx]: its type and the
    character arrays in the order in which they lie in the record.  The
    arrays carry no NUL when they are full.  [ut_tail_array] stands for
    the 32 bytes of [ut_exit], [ut_session], [ut_tv] and [ut_addr_v6];
    the reserved bytes that end the record are 0. *)
Record utmpx := mk_utmpx_record {
  ut_type : Z;                 (* short *)
  ut_line_array : string;      (* char ut_line[32] *)
  ut_id_array : string;        (* char ut_id[4] *)
  ut_user_array : string;      (* char ut_user[32] *)
  ut_host_array : string;      (* char ut_host[256] *)
  ut_tail_array : string       (* the 32 bytes that follow *)
}.

(** The memory of a record from [ut_user] on. *)
Definition memory_from_user (entry : utmpx) : string :=
  (array UT_NAMESIZE (ut_user_array entry)
   ++ array UT_HOSTSIZE (ut_host_array entry)
   ++ array 32 (ut_tail_array entry))%string.

(** The memory of a record from [ut_line] on. *)
Definition memory_from_line (entry : utmpx) : string :=
  (array UT_LINESIZE (ut_line_array entry)
   ++ array 4 (ut_id_array entry)
   ++ memory_from_user entry)%string.

(** [utmp_entry->ut_line] and [utmp_entry->ut_user] as the program uses
    them, as C strings: what [strncat], [strcmp] and [printf] read from
    the first byte of the array to the first NUL, which lies in a later
    field when the array is full. *)
Definition ut_line (entry : utmpx) : string := until_nul (memory_from_line entry).
Definition ut_user (entry : utmpx) : string := until_nul (memory_from_user entry).

(** The record of a session with the line [line] and the owner [user],
    its other arrays empty. *)
Definition mk_utmpx (type : Z) (line user : string) : utmpx :=
  mk_utmpx_record type line EmptyString user EmptyString EmptyString.
Definition EXIT_FAILURE : Z := 1.
Definition UINT_MAX : Z := 4294967295.

(** The variables of the program, the clock of the machine and what the
    program has written and called so far.  [tty_stat] is declared in the
    body of the scan loop without an initial value: its memory holds what
    was there before, which the embedding keeps from one entry to the
    next and takes from the environment at first. *)
Record state := mk_state {
  signal_caught_sigint : Z;            (* static volatile int *)
  last_poll : Z;                       (* time_t *)
  last_poll_string : option string;    (* char *, NULL at first *)
  tty_stat : stat_t;                   (* struct stat, never initialised *)
  clock : Z;                           (* seconds since the epoch, now *)
  output : list event
}.

Definition set_signal_caught_sigint (v : Z) (s : state) : state :=
  mk_state v (last_poll s) (last_poll_string s) (tty_stat s) (clock s) (output s).
Definition set_last_poll (v : Z) (s : state) : state :=
  mk_state (signal_caught_sigint s) v (last_poll_string s) (tty_stat s) (clock s) (output s).
Definition set_last_poll_string (v : option string) (s : state) : state :=
  mk_state (signal_caught_sigint s) (last_poll s) v (tty_stat s) (clock s) (output s).
Definition set_tty_stat (v : stat_t) (s : state) : state :=
  mk_state (signal_caught_sigint s) (last_poll s) (last_poll_string s) v (clock s) (output s).
Definition elapse (seconds : Z) (s : state) : state :=
  mk_state (signal_caught_sigint s) (last_poll s) (last_poll_string s) (tty_stat s)
           (clock s + seconds) (output s).
Definition emit (e : event) (s : state) : state :=
  mk_state (signal_caught_sigint s) (last_poll s) (last_poll_string s) (tty_stat s)
           (clock s) (output s ++ [e]).

(** A step of the program either goes on or has undefined behaviour: a
    NULL pointer is read as a string. *)
Inductive step :=
| Next (s : state)
| Fault (s : state).

Definition bind (r : step) (k : state -> step) : step :=
  match r with
  | Next s => k s
  | Fault s => Fault s
  end.

Notation "r >>= k" := (bind r k) (at level 50, left associativity).

(** What one cycle of the loop meets outside the program. *)
Record cycle_env := mk_cycle {
  slept : Z;                       (* seconds that pass in sleep() *)
  scanned : Z;                     (* seconds that pass in the scan *)
  utmp : list utmpx;               (* what getutxent() returns, in order *)
  fs : string -> option stat_t;    (* stat(): the times of a path, or failure *)
  sigint : bool                    (* SIGINT arrives during the cycle *)
}.

(** What the whole run meets. *)
Record environment := mk_environment {
  ttyname_stdout : option string;  (* ttyname(STDOUT_FILENO), or NULL *)
  stack : stat_t;                  (* what the memory of tty_stat holds at first *)
  start : Z;                       (* the clock when the loop is entered *)
  cycles : list cycle_env
}.

(** The signal handler of lines 41-44. *)
Definition signal_sigint (s : state) : state := set_signal_caught_sigint 1 s.

(** The condition of lines 178-179. *)
Definition reportable (o : options) (st : stat_t) (previous_poll : Z) : bool :=
  (negb (watch_input o =? 0) && (st_atime st >=? previous_poll))
  || (negb (watch_output o =? 0) && (st_mtime st >=? previous_poll)).

(** Lines 165-166: the device of a session, as [strncat] leaves it in
    [tty_path].  [strncat] is given the size of the whole array as its
    bound, so it appends up to 38 characters after "/dev/": when the line
    array is full and [ut_id] is not empty, it writes past the end of
    [tty_path].  The embedding follows the run in which these bytes do
    not reach another variable of the program; [tty_path_written] and
    [line_fits] say when the write stays in the array. *)
Definition tty_path_of (entry : utmpx) : string :=
  strncat "/dev/" (ut_line entry) (6 + UT_LINESIZE).

(** [stat(path, &tty_stat)], its result ignored as on line 177: when it
    fails, [tty_stat] is left as it was. *)
Definition stat (fs : string -> option stat_t) (path : string) (s : state) : state :=
  match fs path with
  | Some st => set_tty_stat st s
  | None => s
  end.

(** Lines 187-195: the bell and the report line.  [printf] is given
    [ut_line] and [ut_user] for "%s": it writes the C strings read from
    the record. *)
Definition report (o : options) (entry : utmpx) (s : state) : step :=
  match last_poll_string s with
  | None => Fault s
  | Some stamp =>
      let s1 := if bell o =? 0 then s else emit (Stdout bel) s in
      Next (emit (Stdout (stamp ++ "; " ++ ut_line entry ++ "; " ++ ut_user entry ++ nl)) s1)
  end.

(** The body of the [while] loop of lines 159-197, for one entry. *)
Definition scan_entry (o : options) (my_tty_path : option string)
    (fs : string -> option stat_t) (entry : utmpx) (s : state) : step :=
  if negb (ut_type entry =? USER_PROCESS) then Next s
  else
    let tty_path := tty_path_of entry in
    match my_tty_path with
    | None => Fault s                       (* strcmp(NULL, tty_path) *)
    | Some mine =>
        if strcmp mine tty_path =? 0 then Next s
        else
          let s1 := stat fs tty_path s in
          if reportable o (tty_stat s1) (last_poll s1) then
            match watched_users o with
            | None => Fault s1
            | Some users =>
                if user_skipped users (ut_user entry) then Next s1
                else report o entry s1
            end
          else Next s1
    end.

(** Lines 157-198: all entries of the accounting file. *)
Fixpoint scan (o : options) (my_tty_path : option string)
    (fs : string -> option stat_t) (entries : list utmpx) (s : state) : step :=
  match entries with
  | [] => Next s
  | entry :: rest =>
      scan_entry o my_tty_path fs entry s >>= scan o my_tty_path fs rest
  end.

Section PollLoop.

(** [ctime]: the rendering of a time, 26 characters that end in a
    newline. *)
Variable ctime : Z -> string.

(** Lines 151-155: the time is taken and rendered, then the program
    sleeps.  [sleep] takes an [unsigned int]. *)
Definition poll_begin (o : options) (c : cycle_env) (s : state) : state :=
  let s1 := set_last_poll (clock s) (emit (Clock (clock s)) s) in
  let s2 := set_last_poll_string (Some (chop (ctime (last_poll s1)))) s1 in
  elapse (slept c) (emit (Sleep (poll_interval o mod (UINT_MAX + 1))) s2).

(** One turn of the [do] loop.  The handler runs when the signal
    arrives; the loop reads the flag only once the scan is over. *)
Definition poll_cycle (o : options) (my_tty_path : option string)
    (c : cycle_env) (s : state) : step :=
  let s1 := poll_begin o c s in
  let s2 := if sigint c then signal_sigint s1 else s1 in
  scan o my_tty_path (fs c) (utmp c) s2 >>= fun s3 => Next (elapse (scanned c) s3).

(** How a run ends, as far as the environment describes it. *)
Inductive outcome :=
| Exited (status : Z) (s : state)
| Running (s : state)          (* still polling when the description ends *)
| Crashed (s : state)          (* undefined behaviour *)
| Unparsed.                    (* option parsing ran out of fuel *)

(** Lines 150-201.  Falling off the end of [main] returns 0. *)
Fixpoint main_loop (o : options) (my_tty_path : option string)
    (cs : list cycle_env) (s : state) : outcome :=
  match cs with
  | [] => Running s
  | c :: rest =>
      match poll_cycle o my_tty_path c s with
      | Fault s' => Crashed s'
      | Next s' =>
          if signal_caught_sigint s' =? 0
          then main_loop o my_tty_path rest s'
          else Exited 0 s'
      end
  end.

Definition initial_state (env : environment) (out : list event) : state :=
  mk_state 0 0 None (stack env) (start env) out.

Definition main (argv : list string) (env : environment) : outcome :=
  match options_parse argv with
  | None => Unparsed
  | Some (r, o, out) =>
      if r =? 0
      then main_loop o (ttyname_stdout env) (cycles env) (initial_state env out)
      else Exited EXIT_FAILURE (initial_state env out)
  end.

End PollLoop.

(** What is left for [getopt] to read. *)
Definition getopt_measure (argv : list string) (g : getopt_state) : nat :=
  match nextchar g with
  | EmptyString => argv_weight (skipn (optind g) argv)
  | String _ rest => S (String.length rest + argv_weight (skipn (S (optind g)) argv))
  end.

(** ** Vocabulary of the statements *)

(** The state a step ends in. *)
Definition step_state (r : step) : state :=
  match r with
  | Next s => s
  | Fault s => s
  end.

(** The state a run ends in. *)
Definition outcome_state (r : outcome) : option state :=
  match r with
  | Exited _ s => Some s
  | Running s => Some s
  | Crashed s => Some s
  | Unparsed => None
  end.

(** The times [time(NULL)] returned, cycle after cycle. *)
Fixpoint poll_times (out : list event) : list Z :=
  match out with
  | [] => []
  | Clock t :: rest => t :: poll_times rest
  | _ :: rest => poll_times rest
  end.

(** A scan writes to the standard output and may fill [tty_stat]; it
    leaves the other variables and the clock alone. *)
Definition scan_frame (s s' : state) : Prop :=
  signal_caught_sigint s' = signal_caught_sigint s
  /\ last_poll s' = last_poll s
  /\ last_poll_string s' = last_poll_string s
  /\ clock s' = clock s
  /\ poll_times (output s') = poll_times (output s).

(** Whether the program wrote to the error stream. *)
Fixpoint wrote_stderr (out : list event) : bool :=
  match out with
  | [] => false
  | Stderr _ :: _ => true
  | _ :: rest => wrote_stderr rest
  end.

(** Each element is at most the next one. *)
Definition consecutive_le (l : list Z) : Prop :=
  forall n a b, nth_error l n = Some a -> nth_error l (S n) = Some b -> a <= b.

(** The times taken so far are in order and none is ahead of the clock. *)
Definition times_in_order (s : state) : Prop :=
  consecutive_le (poll_times (output s))
  /\ Forall (fun t => t <= clock s) (poll_times (output s)).

(** The clock of the machine never goes back while the program runs. *)
Definition clock_nondecreasing (cs : list cycle_env) : Prop :=
  Forall (fun c => 0 <= slept c /\ 0 <= scanned c) cs.

(** A string of decimal digits. *)
Fixpoint all_digits (s : string) : bool :=
  match s with
  | EmptyString => true
  | String c t => isdigit c && all_digits t
  end.

(** ** A machine with two sessions *)

Module Example.

(** [ctime] in the "C" locale for the epoch; the examples do not depend on
    the date. *)
Definition ctime (t : Z) : string := ("Thu Jan  1 00:00:00 1970" ++ nl)%string.

Definition alice : utmpx := mk_utmpx USER_PROCESS "pts/1" "alice".
Definition bob : utmpx := mk_utmpx USER_PROCESS "pts/2" "bob".

(** Only the terminal of alice exists; its last input is at time 100. *)
Definition fs_alice_only (path : string) : option stat_t :=
  if String.eqb path "/dev/pts/1" then Some (mk_stat 100 50) else None.

(** Both terminals exist and are idle since time 50. *)
Definition fs_idle (path : string) : option stat_t :=
  if String.eqb path "/dev/pts/1" || String.eqb path "/dev/pts/2"
  then Some (mk_stat 50 50) else None.

(** One cycle that starts at time 100 and is interrupted: the terminal of
    bob vanished after the session was listed. *)
Definition env_vanished : environment :=
  mk_environment (Some "/dev/pts/0") (mk_stat 0 0) 100
    [mk_cycle 1 0 [alice; bob] fs_alice_only true].

(** The same machine seen by a program whose output is not a terminal. *)
Definition env_no_tty : environment :=
  mk_environment None (mk_stat 0 0) 100
    [mk_cycle 1 0 [alice; bob] fs_idle true].

(** Two quiet cycles, the second interrupted. *)
Definition env_two_cycles : environment :=
  mk_environment (Some "/dev/pts/0") (mk_stat 0 0) 100
    [mk_cycle 1 0 [alice; bob] fs_idle false;
     mk_cycle 1 1 [alice; bob] fs_idle true].

End Example.

(** ** Command lines made of flags *)

(** The options without an argument that set a field. *)
Inductive flag := FlagB | FlagI | FlagO.

Definition flag_char (f : flag) : ascii :=
  match f with
  | FlagB => "b"
  | FlagI => "i"
  | FlagO => "o"
  end%char.

Definition flag_eqb (f1 f2 : flag) : bool :=
  match f1, f2 with
  | FlagB, FlagB | FlagI, FlagI | FlagO, FlagO => true
  | _, _ => false
  end.

(** The letters of a group of flags, and the element of [argv] that
    carries the group. *)
Fixpoint flag_string (l : list flag) : string :=
  match l with
  | [] => EmptyString
  | f :: rest => String (flag_char f) (flag_string rest)
  end.

Definition flag_arg (l : list flag) : string := String "-" (flag_string l).

(** What the [switch] of lines 87-128 does for a flag. *)
Definition apply_flag (o : options) (f : flag) : options :=
  match f with
  | FlagB => set_bell 1 o
  | FlagI => set_watch_input 1 o
  | FlagO => set_watch_output 1 o
  end.

(** 1 when the flag is among [l], else 0. *)
Definition flag_value (f : flag) (l : list flag) : Z :=
  if existsb (flag_eqb f) l then 1 else 0.

(** The options after the flags [l], with the interval [interval]. *)
Definition flags_options (interval : Z) (l : list flag)
    (users : option (list string)) : options :=
  mk_options interval (flag_value FlagI l) (flag_value FlagO l)
             (flag_value FlagB l) users.

(** Whether [getopt] knows the option character [c] of the program. *)
Definition is_option_char (c : ascii) : bool :=
  match (if Ascii.eqb c ":" then None else optstring_lookup c "bhiot:") with
  | Some _ => true
  | None => false
  end.

(** An element of [argv] at which [getopt] stops without consuming it. *)
Definition is_operand (a : string) : bool :=
  match a with
  | String d (String _ _) => negb (Ascii.eqb d "-")
  | _ => true
  end.

(** The rest of the command line is user names. *)
Definition operands (users : list string) : Prop :=
  match users with
  | [] => True
  | u :: _ => is_operand u = true
  end.

(** The three ways in which option parsing ends, after the comment of
    lines 68-71: with the result [r], the options [o] and the output
    [out]. *)
Definition parsed_outcome (argv : list string) (r : Z) (o : options)
    (out : list event) : Prop :=
  (r = 0 /\ out = [] /\ exists n, watched_users o = Some (skipn n argv))
  \/ (r = 1 /\ out = [Stdout (usage (argv0 argv))] /\ watched_users o = None)
  \/ (r = -1 /\ (exists msg, out = [Stderr msg]) /\ watched_users o = None).

(** ** What a scan writes *)

(** The line of a session, and what the program writes for it. *)
Definition report_line (stamp : string) (entry : utmpx) : event :=
  Stdout (stamp ++ "; " ++ ut_line entry ++ "; " ++ ut_user entry ++ nl).

Definition report_events (o : options) (stamp : string) (entry : utmpx) : list event :=
  (if bell o =? 0 then [] else [Stdout bel]) ++ [report_line stamp entry].

(** The rendering in use, the empty string while the pointer is NULL. *)
Definition stamp_of (s : state) : string :=
  match last_poll_string s with
  | Some stamp => stamp
  | None => EmptyString
  end.

(** Whether a session is shown when its device can be read: it belongs to
    a user process, is not on the terminal [mine], is active in the sense
    of lines 178-179 and its owner passes the user filter. *)
Definition shown (o : options) (mine : string) (users : list string)
    (fs : string -> option stat_t) (previous_poll : Z) (entry : utmpx) : bool :=
  (ut_type entry =? USER_PROCESS)
  && negb (strcmp mine (tty_path_of entry) =? 0)
  && match fs (tty_path_of entry) with
     | Some st => reportable o st previous_poll
     | None => false
     end
  && user_passes users (ut_user entry).

(** The session [entry] may be reported under the options [o] by a
    program on the terminal [my_tty_path]. *)
Definition may_report (o : options) (my_tty_path : option string)
    (entry : utmpx) : Prop :=
  ut_type entry = USER_PROCESS
  /\ (exists mine, my_tty_path = Some mine /\ strcmp mine (tty_path_of entry) <> 0)
  /\ (exists users, watched_users o = Some users
                    /\ user_passes users (ut_user entry) = true)
  /\ (watch_input o <> 0 \/ watch_output o <> 0).

(** What was written to the standard output. *)
Fixpoint stdout_events (out : list event) : list string :=
  match out with
  | [] => []
  | Stdout text :: rest => text :: stdout_events rest
  | _ :: rest => stdout_events rest
  end.

(** The bytes [strncat] leaves in [tty_path], with the NUL that ends
    them. *)
Definition tty_path_written (entry : utmpx) : nat :=
  (strlen (tty_path_of entry) + 1)%nat.

(** The line read from the record is no longer than its array: [strncat]
    then writes within [tty_path]. *)
Definition line_fits (entry : utmpx) : Prop :=
  (String.length (ut_line entry) <= UT_LINESIZE)%nat.


(** Both times of [st] are before [t]. *)
Definition older_than (t : Z) (st : stat_t) : Prop :=
  st_atime st < t /\ st_mtime st < t.

(** No device was touched at or after the time [t]. *)
Definition idle_since (t : Z) (cs : list cycle_env) : Prop :=
  Forall (fun c => forall path st, fs c path = Some st -> older_than t st) cs.

(** ** Properties of strings *)

Lemma chr_inj c1 c2 : chr c1 = chr c2 -> c1 = c2.
Proof.
  unfold chr. intros H. apply N2Z.inj in H.
  rewrite <- (ascii_N_embedding c1), <- (ascii_N_embedding c2). now rewrite H.
Qed.

Lemma strcmp_refl s : strcmp s s = 0.
Proof.
  induction s as [|c t IH]; simpl; [reflexivity|].
  rewrite Z.eqb_refl. now destruct (chr c =? 0).
Qed.

Lemma strcmp_eq s1 : forall s2,
  cstring s1 -> cstring s2 -> strcmp s1 s2 = 0 -> s1 = s2.
Proof.
  induction s1 as [|c1 t1 IH]; intros [|c2 t2]; simpl; intros H1 H2 H.
  - reflexivity.
  - destruct H2 as [H2 _]. lia.
  - destruct H1 as [H1 _]. lia.
  - destruct H1 as [H1 H1'], H2 as [H2 H2'].
    destruct (chr c1 =? chr c2) eqn:E.
    + apply Z.eqb_eq in E. apply Z.eqb_neq in H1. rewrite H1 in H.
      f_equal; [now apply chr_inj | now apply IH].
    + apply Z.eqb_neq in E. lia.
Qed.

Lemma strstrlist_some haystack needle h :
  strstrlist haystack needle = Some h -> In h haystack /\ strcmp h needle = 0.
Proof.
  induction haystack as [|a rest IH]; simpl; [discriminate|].
  destruct (strcmp a needle =? 0) eqn:E.
  - intros [= <-]. apply Z.eqb_eq in E. auto.
  - intros H. destruct (IH H). auto.
Qed.

Lemma strstrlist_none haystack needle :
  strstrlist haystack needle = None ->
  forall h, In h haystack -> strcmp h needle <> 0.
Proof.
  induction haystack as [|a rest IH]; simpl; [tauto|].
  destruct (strcmp a needle =? 0) eqn:E; [discriminate|].
  intros H h [<-|Hin]; [now apply Z.eqb_neq | now apply IH].
Qed.

(** C2. The user filter lets a session through exactly when no user was
    configured or the owner's name is, character for character, one of the
    configured names.  A prefix of a configured name, a name in another
    case and a wildcard do not pass. *)
Theorem user_filter_exact (U : list string) (s : string) :
  Forall cstring U -> cstring s ->
  (user_passes U s = true <-> U = [] \/ In s U)
  /\ user_passes ["alice"] "al" = false
  /\ user_passes ["alice"] "Alice" = false
  /\ user_passes ["alice"] "alice2" = false
  /\ user_passes ["*"] "alice" = false
  /\ user_passes ["al*"] "alice" = false.
Proof.
  intros HU Hs. split; [|repeat split; reflexivity].
  unfold user_passes, user_skipped.
  destruct U as [|u U']; [simpl; tauto|].
  destruct (strstrlist (u :: U') s) as [h|] eqn:E; simpl.
  - apply strstrlist_some in E. destruct E as [Hin Hc].
    split; [intros _|reflexivity]. right.
    rewrite Forall_forall in HU.
    now rewrite <- (strcmp_eq h s (HU h Hin) Hs Hc).
  - split; [discriminate|]. intros [H|H]; [discriminate|].
    exfalso. exact (strstrlist_none _ _ E s H (strcmp_refl s)).
Qed.

Lemma user_filter_exact_witness :
  Forall cstring ["alice"; "bob"] /\ cstring "bob"
  /\ (user_passes ["alice"; "bob"] "bob" = true <->
      ["alice"; "bob"] = [] \/ In "bob" ["alice"; "bob"]).
Proof.
  assert (HU : Forall cstring ["alice"; "bob"])
    by (repeat constructor; simpl; repeat split; discriminate).
  assert (Hs : cstring "bob") by (simpl; repeat split; discriminate).
  split; [exact HU|]. split; [exact Hs|].
  apply (user_filter_exact ["alice"; "bob"] "bob" HU Hs).
Defined.


(** ** Option parsing always returns *)

Lemma argv_weight_skipn_S argv : forall n,
  (argv_weight (skipn (S n) argv) <= argv_weight (skipn n argv))%nat.
Proof.
  induction argv as [|a rest IH]; intros [|n]; simpl; try lia.
  apply (IH n).
Qed.

Lemma argv_weight_nth argv : forall n a,
  nth_error argv n = Some a ->
  argv_weight (skipn n argv) = S (String.length a + argv_weight (skipn (S n) argv)).
Proof.
  induction argv as [|b rest IH]; intros [|n] a; simpl; try discriminate.
  - now intros [= ->].
  - intros H. now rewrite (IH n a H).
Qed.

Lemma chr_nonneg c : 0 <= chr c.
Proof. unfold chr. lia. Qed.

Lemma getopt_char_decreases argv optstring g c rest r g' :
  getopt_char argv optstring g c rest = (r, g') ->
  r <> -1 /\
  (getopt_measure argv g' <
   S (String.length rest + argv_weight (skipn (S (optind g)) argv)))%nat.
Proof.
  unfold getopt_char.
  pose proof (argv_weight_skipn_S argv (S (optind g))) as Hw.
  destruct (if Ascii.eqb c ":" then None else optstring_lookup c optstring)
    as [[|]|].
  - destruct rest as [|d rest'].
    + destruct (nth_error argv (S (optind g))) eqn:E; intros [= <- <-];
        (split; [pose proof (chr_nonneg c); pose proof (chr_nonneg "?"); lia|]);
        unfold getopt_measure; cbn [nextchar optind String.length Nat.add]; lia.
    + intros [= <- <-]. split; [pose proof (chr_nonneg c); lia|].
      unfold getopt_measure; cbn [nextchar optind String.length Nat.add]; lia.
  - intros [= <- <-]. split; [pose proof (chr_nonneg c); lia|].
    destruct rest; unfold getopt_measure, getopt_advance;
      cbn [nextchar optind String.length Nat.add]; lia.
  - intros [= <- <-]. split; [pose proof (chr_nonneg "?"); lia|].
    destruct rest; unfold getopt_measure, getopt_advance;
      cbn [nextchar optind String.length Nat.add]; lia.
Qed.

Lemma getopt_decreases argv optstring g r g' :
  getopt argv optstring g = (r, g') ->
  r <> -1 ->
  (getopt_measure argv g' < getopt_measure argv g)%nat.
Proof.
  unfold getopt. destruct (nextchar g) as [|c rest] eqn:En.
  - destruct (nth_error argv (optind g)) as [[|d [|c rest]]|] eqn:Ea;
      try (intros [= <- <-]; congruence).
    destruct (Ascii.eqb d "-"); [|intros [= <- <-]; congruence].
    destruct (Ascii.eqb c "-" && String.eqb rest "");
      [intros [= <- <-]; congruence|].
    intros H _. apply getopt_char_decreases in H. destruct H as [_ H].
    unfold getopt_measure at 2. rewrite En.
    rewrite (argv_weight_nth _ _ _ Ea). cbn [String.length]. lia.
  - intros H _. apply getopt_char_decreases in H. destruct H as [_ H].
    unfold getopt_measure at 2. rewrite En. exact H.
Qed.

Lemma options_parse_loop_returns argv : forall fuel g o out,
  (getopt_measure argv g < fuel)%nat ->
  options_parse_loop fuel argv g o out <> None.
Proof.
  induction fuel as [|fuel IH]; intros g o out Hm; [lia|].
  simpl. destruct (getopt argv "bhiot:" g) as [r g'] eqn:Eg.
  destruct (r =? -1) eqn:Er; [discriminate|].
  apply Z.eqb_neq in Er.
  pose proof (getopt_decreases _ _ _ _ _ Eg Er) as Hd.
  assert (Hm' : (getopt_measure argv g' < fuel)%nat) by lia.
  repeat match goal with
         | |- (if ?b then _ else _) <> None => destruct b
         | |- (let '(_, _) := ?p in _) <> None => destruct p
         | |- Some _ <> None => discriminate
         | |- options_parse_loop fuel _ _ _ _ <> None => now apply IH
         end.
Qed.

Lemma options_parse_returns argv : options_parse argv <> None.
Proof.
  unfold options_parse. apply options_parse_loop_returns.
  unfold getopt_measure, getopt_init. simpl nextchar. simpl optind.
  pose proof (argv_weight_skipn_S argv 0). simpl skipn in *. lia.
Qed.

(** More fuel does not change what the loop returns. *)
Lemma options_parse_loop_mono argv : forall fuel fuel' g o out r,
  (fuel <= fuel')%nat ->
  options_parse_loop fuel argv g o out = Some r ->
  options_parse_loop fuel' argv g o out = Some r.
Proof.
  induction fuel as [|fuel IH]; intros [|fuel'] g o out r Hle; try discriminate; [lia|].
  simpl. destruct (getopt argv "bhiot:" g) as [c g'].
  assert (Hle' : (fuel <= fuel')%nat) by lia.
  repeat match goal with
         | |- (if ?b then _ else _) = _ -> _ => destruct b
         | |- (let '(_, _) := ?p in _) = _ -> _ => destruct p
         | |- Some _ = _ -> _ => exact (fun H => H)
         | |- options_parse_loop fuel _ _ _ _ = _ -> _ => now apply IH
         end.
Qed.

(** [options_parse] returns what the loop returns with any fuel that is
    enough. *)
Lemma options_parse_by_fuel fuel argv r :
  options_parse_loop fuel argv getopt_init options_default [] = Some r ->
  options_parse argv = Some r.
Proof.
  intros H. unfold options_parse.
  destruct (options_parse_loop (S (argv_weight argv)) argv getopt_init
              options_default []) as [r'|] eqn:E.
  - destruct (Nat.le_ge_cases fuel (S (argv_weight argv))) as [Hle|Hle].
    + rewrite (options_parse_loop_mono _ _ _ _ _ _ _ Hle H) in E. now inversion E.
    + now rewrite (options_parse_loop_mono _ _ _ _ _ _ _ Hle E) in H.
  - exfalso. exact (options_parse_returns argv E).
Qed.

(** ** The scan *)

Lemma poll_times_app out1 out2 :
  poll_times (out1 ++ out2) = poll_times out1 ++ poll_times out2.
Proof.
  induction out1 as [|e out1 IH]; simpl; [reflexivity|].
  destruct e; simpl; now rewrite ?IH.
Qed.

Lemma scan_frame_refl s : scan_frame s s.
Proof. now repeat split. Qed.

Lemma scan_frame_trans s1 s2 s3 :
  scan_frame s1 s2 -> scan_frame s2 s3 -> scan_frame s1 s3.
Proof.
  unfold scan_frame. intros (A1 & A2 & A3 & A4 & A5) (B1 & B2 & B3 & B4 & B5).
  repeat split; congruence.
Qed.

Lemma stat_frame fs path s : scan_frame s (stat fs path s).
Proof. unfold stat. destruct (fs path); now repeat split. Qed.

Lemma emit_stdout_frame text s : scan_frame s (emit (Stdout text) s).
Proof.
  repeat split. simpl. rewrite poll_times_app. simpl. apply app_nil_r.
Qed.

Lemma report_frame o entry s : scan_frame s (step_state (report o entry s)).
Proof.
  unfold report. destruct (last_poll_string s); simpl; [|apply scan_frame_refl].
  destruct (bell o =? 0).
  - apply emit_stdout_frame.
  - eapply scan_frame_trans; apply emit_stdout_frame.
Qed.

Lemma scan_entry_frame o tty fs entry s :
  scan_frame s (step_state (scan_entry o tty fs entry s)).
Proof.
  unfold scan_entry.
  destruct (negb (ut_type entry =? USER_PROCESS)); [apply scan_frame_refl|].
  destruct tty as [mine|]; [|apply scan_frame_refl].
  destruct (strcmp mine (tty_path_of entry) =? 0); [apply scan_frame_refl|].
  pose proof (stat_frame fs (tty_path_of entry) s) as Hs.
  destruct (reportable _ _ _); [|exact Hs].
  destruct (watched_users o) as [users|]; [|exact Hs].
  destruct (user_skipped users (ut_user entry)); [exact Hs|].
  eapply scan_frame_trans; [exact Hs | apply report_frame].
Qed.

Lemma scan_scan_frame o tty fs entries : forall s,
  scan_frame s (step_state (scan o tty fs entries s)).
Proof.
  induction entries as [|entry rest IH]; intros s; simpl; [apply scan_frame_refl|].
  pose proof (scan_entry_frame o tty fs entry s) as He.
  destruct (scan_entry o tty fs entry s) as [s1|s1]; simpl in *; [|exact He].
  eapply scan_frame_trans; [exact He | apply IH].
Qed.

(** C1. For a session of a user process on another terminal whose device
    times were read as [st], the program goes on to the user filter
    exactly when the condition holds; the condition is true exactly when
    input is watched and the last input is at or after the previous poll,
    or output is watched and the last output is at or after it.  With -i
    alone a last input at the very second of the previous poll counts,
    and with neither -i nor -o nothing does. *)
Theorem reportable_iff (o : options) (mine : string)
    (fs : string -> option stat_t) (entry : utmpx) (s : state) (st : stat_t) :
  ut_type entry = USER_PROCESS ->
  strcmp mine (tty_path_of entry) <> 0 ->
  fs (tty_path_of entry) = Some st ->
  (reportable o st (last_poll s) = true <->
     (watch_input o <> 0 /\ st_atime st >= last_poll s) \/
     (watch_output o <> 0 /\ st_mtime st >= last_poll s))
  /\ scan_entry o (Some mine) fs entry s =
       (if reportable o st (last_poll s)
        then match watched_users o with
             | None => Fault (set_tty_stat st s)
             | Some users =>
                 if user_skipped users (ut_user entry)
                 then Next (set_tty_stat st s)
                 else report o entry (set_tty_stat st s)
             end
        else Next (set_tty_stat st s))
  /\ (forall interval b users t mtime,
        reportable (mk_options interval 1 0 b users) (mk_stat t mtime) t = true)
  /\ (forall interval b users st' t,
        reportable (mk_options interval 0 0 b users) st' t = false).
Proof.
  intros Ht Hm Hf. split; [split|split; [|split]].
  - unfold reportable. intros H. apply orb_true_iff in H.
    destruct H as [H|H]; apply andb_true_iff in H; destruct H as [H1 H2];
      apply negb_true_iff, Z.eqb_neq in H1; apply Z.geb_le in H2;
      [left|right]; split; (assumption || lia).
  - unfold reportable. intros [[H1 H2]|[H1 H2]]; apply orb_true_iff; [left|right];
      apply andb_true_iff; split;
      try (apply negb_true_iff, Z.eqb_neq; assumption);
      apply Z.geb_le; lia.
  - unfold scan_entry, stat. rewrite Ht, Z.eqb_refl. simpl negb. cbv iota.
    apply Z.eqb_neq in Hm. rewrite Hm, Hf. reflexivity.
  - intros. unfold reportable. simpl. rewrite (proj2 (Z.geb_le t t)); [reflexivity|lia].
  - intros. reflexivity.
Qed.

Lemma reportable_iff_witness :
  let s := mk_state 0 100 (Some "now") (mk_stat 0 0) 101 [] in
  let o := mk_options 1 1 0 0 (Some []) in
  ut_type Example.alice = USER_PROCESS
  /\ strcmp "/dev/pts/0" (tty_path_of Example.alice) <> 0
  /\ Example.fs_alice_only (tty_path_of Example.alice) = Some (mk_stat 100 50)
  /\ (reportable o (mk_stat 100 50) (last_poll s) = true <->
        (watch_input o <> 0 /\ st_atime (mk_stat 100 50) >= last_poll s) \/
        (watch_output o <> 0 /\ st_mtime (mk_stat 100 50) >= last_poll s)).
Proof.
  intros s o.
  assert (H1 : ut_type Example.alice = USER_PROCESS) by reflexivity.
  assert (H2 : strcmp "/dev/pts/0" (tty_path_of Example.alice) <> 0)
    by (vm_compute; discriminate).
  assert (H3 : Example.fs_alice_only (tty_path_of Example.alice) = Some (mk_stat 100 50))
    by reflexivity.
  repeat split; try assumption;
    apply (reportable_iff o "/dev/pts/0" Example.fs_alice_only Example.alice s
             (mk_stat 100 50) H1 H2 H3).
Defined.

(** C3. A session on the terminal of the program itself is passed over
    before anything is read or written, whatever the options: the scan of
    a cycle gives what it gives without that session. *)
Theorem own_terminal_skipped (o : options) (mine : string)
    (fs : string -> option stat_t) (entry : utmpx) :
  tty_path_of entry = mine ->
  (forall s, scan_entry o (Some mine) fs entry s = Next s)
  /\ (forall before after s,
        scan o (Some mine) fs (before ++ entry :: after) s =
        scan o (Some mine) fs (before ++ after) s)
  /\ (forall ctime sl sc before after sig s,
        poll_cycle ctime o (Some mine) (mk_cycle sl sc (before ++ entry :: after) fs sig) s =
        poll_cycle ctime o (Some mine) (mk_cycle sl sc (before ++ after) fs sig) s).
Proof.
  intros Hp.
  assert (He : forall s, scan_entry o (Some mine) fs entry s = Next s).
  { intros s. unfold scan_entry.
    destruct (negb (ut_type entry =? USER_PROCESS)); [reflexivity|].
    rewrite Hp, strcmp_refl. reflexivity. }
  assert (Hs : forall before after s,
             scan o (Some mine) fs (before ++ entry :: after) s =
             scan o (Some mine) fs (before ++ after) s).
  { induction before as [|b before IH]; intros after s; simpl.
    - now rewrite He.
    - destruct (scan_entry o (Some mine) fs b s) as [s1|s1]; simpl; [apply IH|reflexivity]. }
  repeat split; try assumption.
  intros. unfold poll_cycle. simpl. now rewrite Hs.
Qed.

Lemma own_terminal_skipped_witness :
  tty_path_of Example.alice = "/dev/pts/1"
  /\ forall s, scan_entry (mk_options 1 1 1 1 (Some [])) (Some "/dev/pts/1")
                 Example.fs_alice_only Example.alice s = Next s.
Proof.
  split; [reflexivity|].
  apply (own_terminal_skipped (mk_options 1 1 1 1 (Some [])) "/dev/pts/1"
           Example.fs_alice_only Example.alice).
  reflexivity.
Defined.

(** ** Runs of the program *)

(** C4. When [stat] fails, [tty_stat] keeps the times of the session
    before: bob, whose terminal is gone, is reported with the input time
    of alice.  The run writes no diagnostic and goes on to the end of the
    scan. *)
Theorem vanished_device_reported :
  Example.fs_alice_only (tty_path_of Example.bob) = None
  /\ exists s,
       main Example.ctime ["actspy"; "-i"] Example.env_vanished = Exited 0 s
       /\ output s =
            [Clock 100; Sleep 1;
             Stdout ("Thu Jan  1 00:00:00 1970; pts/1; alice" ++ nl);
             Stdout ("Thu Jan  1 00:00:00 1970; pts/2; bob" ++ nl)]
       /\ wrote_stderr (output s) = false.
Proof.
  split; [reflexivity|].
  eexists. split; [vm_compute; reflexivity|]. split; reflexivity.
Qed.

(** C5. With -h first on the command line the program writes the usage
    text, polls nothing, and returns EXIT_FAILURE, which is not 0. *)
Theorem help_exits_with_failure (ctime : Z -> string) (prog : string)
    (more : list string) (env : environment) :
  main ctime (prog :: "-h" :: more) env =
    Exited EXIT_FAILURE (initial_state env [Stdout (usage prog)])
  /\ EXIT_FAILURE <> 0
  /\ poll_times [Stdout (usage prog)] = [].
Proof.
  split; [|split; [discriminate|reflexivity]].
  unfold main.
  rewrite (options_parse_by_fuel 1 (prog :: "-h" :: more)
             (1, options_default, [Stdout (usage prog)])); reflexivity.
Qed.

(** C6. "-t 0" is taken: parsing succeeds with an interval of 0, nothing
    is written to the error stream, and the loop is entered, where every
    cycle calls [sleep(0)]. *)
Theorem zero_interval_accepted (ctime : Z -> string) (prog : string)
    (env : environment) :
  let o := mk_options 0 0 0 0 (Some []) in
  options_parse [prog; "-t"; "0"] = Some (0, o, [])
  /\ main ctime [prog; "-t"; "0"] env =
       main_loop ctime o (ttyname_stdout env) (cycles env) (initial_state env [])
  /\ forall c s,
       output (poll_begin ctime o c s) = output s ++ [Clock (clock s); Sleep 0].
Proof.
  intros o.
  assert (H : options_parse [prog; "-t"; "0"] = Some (0, o, []))
    by (apply (options_parse_by_fuel 2); reflexivity).
  split; [exact H|]. split.
  - unfold main. rewrite H. reflexivity.
  - intros c s. simpl. now rewrite <- app_assoc.
Qed.

(** C8. When [ttyname] returned NULL, the first session of a user process
    makes the program compare NULL as a string: the scan, and with it the
    run, ends in undefined behaviour whatever the options. *)
Theorem missing_own_terminal_faults (o : options)
    (fs : string -> option stat_t) (line user : string) (s : state) :
  scan_entry o None fs (mk_utmpx USER_PROCESS line user) s = Fault s
  /\ (forall rest, scan o None fs (mk_utmpx USER_PROCESS line user :: rest) s = Fault s)
  /\ exists s', main Example.ctime ["actspy"; "-i"] Example.env_no_tty = Crashed s'
                /\ output s' = [Clock 100; Sleep 1].
Proof.
  assert (H : scan_entry o None fs (mk_utmpx USER_PROCESS line user) s = Fault s)
    by reflexivity.
  split; [exact H|]. split.
  - intros rest. cbn [scan]. now rewrite H.
  - eexists. split; [vm_compute; reflexivity|reflexivity].
Qed.

(** ** The baseline of the comparisons *)

Lemma consecutive_le_snoc l x :
  consecutive_le l -> Forall (fun t => t <= x) l -> consecutive_le (l ++ [x]).
Proof.
  intros Hl Hx n a b Ha Hb.
  destruct (Nat.lt_ge_cases (S n) (List.length l)) as [Hlt|Hge].
  - rewrite nth_error_app1 in Ha, Hb by lia. exact (Hl n a b Ha Hb).
  - assert (Hn : (n < List.length l)%nat).
    { destruct (Nat.lt_ge_cases n (List.length l)) as [H|H]; [exact H|].
      assert (Hnone : nth_error (l ++ [x]) (S n) = None)
        by (apply nth_error_None; rewrite length_app; simpl; lia).
      congruence. }
    rewrite nth_error_app1 in Ha by lia.
    rewrite nth_error_app2 in Hb by lia.
    replace (S n - List.length l)%nat with 0%nat in Hb by lia.
    simpl in Hb. injection Hb as <-.
    rewrite Forall_forall in Hx. apply Hx. eapply nth_error_In. exact Ha.
Qed.

Lemma poll_cycle_shape ctime o tty c s :
  exists s2,
    poll_cycle ctime o tty c s =
      (scan o tty (fs c) (utmp c) s2 >>= fun s3 => Next (elapse (scanned c) s3))
    /\ last_poll s2 = clock s
    /\ last_poll_string s2 = Some (chop (ctime (clock s)))
    /\ clock s2 = clock s + slept c
    /\ output s2 =
         output s ++ [Clock (clock s); Sleep (poll_interval o mod (UINT_MAX + 1))].
Proof.
  exists (if sigint c then signal_sigint (poll_begin ctime o c s)
          else poll_begin ctime o c s).
  split; [reflexivity|].
  destruct (sigint c); simpl; rewrite <- app_assoc; repeat split; reflexivity.
Qed.

Lemma poll_cycle_state ctime o tty c s :
  let s' := step_state (poll_cycle ctime o tty c s) in
  last_poll s' = clock s
  /\ poll_times (output s') = poll_times (output s) ++ [clock s]
  /\ (clock s' = clock s + slept c \/ clock s' = clock s + slept c + scanned c).
Proof.
  destruct (poll_cycle_shape ctime o tty c s) as (s2 & -> & Hl & _ & Hc & Ho).
  pose proof (scan_scan_frame o tty (fs c) (utmp c) s2) as (_ & F2 & _ & F4 & F5).
  destruct (scan o tty (fs c) (utmp c) s2) as [s3|s3]; simpl in *;
    rewrite F2, F5, Ho, poll_times_app, F4, Hc; simpl;
    (split; [exact Hl|split; [reflexivity|auto]]).
Qed.

Lemma poll_cycle_in_order ctime o tty c s :
  0 <= slept c -> 0 <= scanned c ->
  times_in_order s ->
  times_in_order (step_state (poll_cycle ctime o tty c s)).
Proof.
  intros Hs Hc [Hord Hle].
  destruct (poll_cycle_state ctime o tty c s) as (_ & Ho & Hk).
  unfold times_in_order. rewrite Ho. split.
  - now apply consecutive_le_snoc.
  - apply Forall_app. split.
    + eapply Forall_impl; [|exact Hle]. simpl. intros t Ht. destruct Hk; lia.
    + constructor; [destruct Hk; lia|constructor].
Qed.

Lemma main_loop_in_order ctime o tty cs : forall s s',
  clock_nondecreasing cs ->
  times_in_order s ->
  outcome_state (main_loop ctime o tty cs s) = Some s' ->
  times_in_order s'.
Proof.
  induction cs as [|c rest IH]; intros s s' Hcs Hs; simpl.
  - now intros [= <-].
  - inversion Hcs as [|? ? [Hsl Hsc] Hrest]; subst.
    pose proof (poll_cycle_in_order ctime o tty c s Hsl Hsc Hs) as H1.
    destruct (poll_cycle ctime o tty c s) as [s1|s1]; simpl in H1.
    + destruct (signal_caught_sigint s1 =? 0).
      * now apply IH.
      * now intros [= <-].
    + now intros [= <-].
Qed.

Lemma options_parse_loop_quiet argv : forall fuel g o out r o' out',
  options_parse_loop fuel argv g o out = Some (r, o', out') ->
  poll_times out = [] -> poll_times out' = [].
Proof.
  induction fuel as [|fuel IH]; intros g o out r o' out'; [discriminate|].
  simpl. destruct (getopt argv "bhiot:" g) as [c g'].
  repeat match goal with
         | |- (if ?b then _ else _) = _ -> _ => destruct b
         | |- (let '(_, _) := ?p in _) = _ -> _ => destruct p
         | |- Some _ = Some _ -> _ =>
             intros [= <- <- <-]; rewrite ?poll_times_app; simpl;
             intros ->; reflexivity
         | |- options_parse_loop fuel _ _ _ _ = _ -> _ => now apply IH
         end.
Qed.

(** C9. While the clock does not go back, the times the cycles of a run
    take as their baseline never decrease from one cycle to the next.
    Each cycle takes the time and renders it first, then sleeps, and all
    comparisons of its scan are against that time. *)
Theorem baseline_monotone (ctime : Z -> string) (argv : list string)
    (env : environment) :
  clock_nondecreasing (cycles env) ->
  (forall s', outcome_state (main ctime argv env) = Some s' ->
              consecutive_le (poll_times (output s')))
  /\ (forall o tty c s, exists s2,
        poll_cycle ctime o tty c s =
          (scan o tty (fs c) (utmp c) s2 >>= fun s3 => Next (elapse (scanned c) s3))
        /\ last_poll s2 = clock s
        /\ last_poll_string s2 = Some (chop (ctime (clock s)))
        /\ clock s2 = clock s + slept c
        /\ output s2 =
             output s ++ [Clock (clock s); Sleep (poll_interval o mod (UINT_MAX + 1))])
  /\ (forall o tty c s,
        last_poll (step_state (poll_cycle ctime o tty c s)) = clock s).
Proof.
  intros Hcs. split; [|split].
  - intros s'. unfold main.
    destruct (options_parse argv) as [[[r o] out]|] eqn:Ep; [|discriminate].
    assert (Hq : poll_times out = [])
      by (eapply options_parse_loop_quiet; [exact Ep|reflexivity]).
    assert (H0 : times_in_order (initial_state env out))
      by (unfold times_in_order; simpl; rewrite Hq; split;
          [intros [|n] ? ?; discriminate|constructor]).
    destruct (r =? 0).
    + intros H. exact (proj1 (main_loop_in_order _ _ _ _ _ _ Hcs H0 H)).
    + intros [= <-]. exact (proj1 H0).
  - intros. apply poll_cycle_shape.
  - intros. apply poll_cycle_state.
Qed.

Lemma baseline_monotone_witness :
  clock_nondecreasing (cycles Example.env_two_cycles)
  /\ (forall s',
        outcome_state (main Example.ctime ["actspy"; "-i"] Example.env_two_cycles) = Some s' ->
        consecutive_le (poll_times (output s'))).
Proof.
  assert (H : clock_nondecreasing (cycles Example.env_two_cycles))
    by (repeat constructor; simpl; lia).
  split; [exact H|].
  apply (baseline_monotone Example.ctime ["actspy"; "-i"] Example.env_two_cycles H).
Defined.

(** ** Negative intervals *)












(** ** The interrupt *)

(** A cycle in which SIGINT arrives is the last one: once its scan is
    over the loop ends and [main] returns 0. *)
Lemma interrupted_cycle_is_last ctime o tty c rest s s' :
  sigint c = true ->
  poll_cycle ctime o tty c s = Next s' ->
  main_loop ctime o tty (c :: rest) s = Exited 0 s'.
Proof.
  intros Hi Hp. simpl. rewrite Hp.
  assert (Hf : signal_caught_sigint s' = 1).
  { unfold poll_cycle in Hp. rewrite Hi in Hp.
    pose proof (scan_scan_frame o tty (fs c) (utmp c)
                  (signal_sigint (poll_begin ctime o c s))) as (F1 & _).
    destruct (scan o tty (fs c) (utmp c) (signal_sigint (poll_begin ctime o c s)));
      simpl in *; [|discriminate].
    injection Hp as <-. simpl. exact F1. }
  now rewrite Hf.
Qed.

(** ** Other facts about the command line *)

(** [sscanf] stores a number exactly when it returns 1. *)
Lemma sscanf_ld_stored arg :
  (fst (sscanf_ld arg) = 1 /\ snd (sscanf_ld arg) <> None)
  \/ ((fst (sscanf_ld arg) = 0 \/ fst (sscanf_ld arg) = EOF)
      /\ snd (sscanf_ld arg) = None).
Proof.
  unfold sscanf_ld. destruct (skip_space arg) as [|c t]; [right; auto|].
  destruct (chr c =? 0); [right; auto|].
  destruct (Ascii.eqb c "-"); [|destruct (Ascii.eqb c "+")];
    match goal with
    | |- context [scan_unsigned ?x] => destruct (scan_unsigned x)
    end; simpl; (left; split; [reflexivity|discriminate]) || (right; auto).
Qed.

(** An argument of -t in which [sscanf] finds no number ends the program
    with EXIT_FAILURE, the argument named on the error stream, and no
    poll. *)
Lemma unmatched_interval_rejected ctime prog arg env :
  fst (sscanf_ld arg) = 0 ->
  main ctime [prog; "-t"; arg] env =
    Exited EXIT_FAILURE
      (initial_state env [Stderr ("Invalid timestamp option -t " ++ arg ++ "." ++ nl)]).
Proof.
  intros H0.
  assert (Hp : options_parse [prog; "-t"; arg] =
               Some (-1, options_default,
                     [Stderr ("Invalid timestamp option -t " ++ arg ++ "." ++ nl)])).
  { apply (options_parse_by_fuel 1). cbn [options_parse_loop].
    change (getopt [prog; "-t"; arg] "bhiot:" getopt_init)
      with (chr "t", mk_getopt 3 "" (Some arg) (chr "?")).
    cbv iota beta.
    change (chr "t" =? -1) with false.
    change (chr "t" =? chr "b") with false.
    change (chr "t" =? chr "h") with false.
    change (chr "t" =? chr "i") with false.
    change (chr "t" =? chr "o") with false.
    change (chr "t" =? chr "t") with true.
    cbv iota. cbn [optarg].
    destruct (sscanf_ld_stored arg) as [[H1 _]|[_ Hn]]; [congruence|].
    destruct (sscanf_ld arg) as [n stored]. simpl in *. subst. reflexivity. }
  unfold main. rewrite Hp. reflexivity.
Qed.

(** An empty argument of -t is taken: [sscanf] returns [EOF], not 0, and
    the interval stays at its default. *)
Lemma empty_interval_accepted ctime prog env :
  main ctime [prog; "-t"; ""] env =
    main_loop ctime (mk_options 1 0 0 0 (Some [])) (ttyname_stdout env)
      (cycles env) (initial_state env []).
Proof.
  unfold main.
  rewrite (options_parse_by_fuel 2 [prog; "-t"; ""]
             (0, mk_options 1 0 0 0 (Some []), [])); reflexivity.
Qed.

(** The run of [main] is always described: option parsing never runs out
    of fuel. *)
Lemma main_parses ctime argv env : main ctime argv env <> Unparsed.
Proof.
  unfold main. pose proof (options_parse_returns argv) as Hp.
  destruct (options_parse argv) as [[[r o] out]|]; [|congruence].
  destruct (r =? 0); [|discriminate].
  generalize (initial_state env out).
  induction (cycles env) as [|c rest IH]; intros s; simpl; [discriminate|].
  destruct (poll_cycle ctime o (ttyname_stdout env) c s) as [s'|s']; [|discriminate].
  destruct (signal_caught_sigint s' =? 0); [apply IH|discriminate].
Qed.

(** ** More on strstrlist *)

(** X1. [strstrlist] returns the first entry of the list that [strcmp]
    finds equal to the needle: the entries before it differ from the
    needle.  It returns NULL exactly when every entry differs. *)
Theorem strstrlist_first_match (haystack : list string) (needle : string) :
  (forall h, strstrlist haystack needle = Some h <->
     exists before after,
       haystack = before ++ h :: after
       /\ strcmp h needle = 0
       /\ forall x, In x before -> strcmp x needle <> 0)
  /\ (strstrlist haystack needle = None <->
        forall x, In x haystack -> strcmp x needle <> 0).
Proof.
  split.
  - induction haystack as [|a rest IH]; intros h; simpl.
    + split; [discriminate|]. intros ([|? ?] & after & H & _); discriminate.
    + destruct (strcmp a needle =? 0) eqn:E.
      * apply Z.eqb_eq in E. split.
        -- intros [= <-]. exists [], rest. repeat split; [exact E|intros ? []].
        -- intros ([|b before] & after & H & Hh & Hb); simpl in H;
             injection H as Ha Hr.
           ++ now rewrite Ha.
           ++ exfalso. apply (Hb a); [left; now rewrite Ha|exact E].
      * apply Z.eqb_neq in E. rewrite IH. split.
        -- intros (before & after & -> & Hh & Hb). exists (a :: before), after.
           repeat split; [exact Hh|]. intros x [<-|Hx]; [exact E|now apply Hb].
        -- intros ([|b before] & after & H & Hh & Hb); simpl in H;
             injection H as Ha Hr.
           ++ rewrite Ha in E. contradiction.
           ++ exists before, after.
              repeat split; [exact Hr|exact Hh|]. intros x Hx. apply Hb. now right.
  - split; [apply strstrlist_none|].
    intros H. destruct (strstrlist haystack needle) as [h|] eqn:E; [|reflexivity].
    apply strstrlist_some in E. destruct E as [Hin Hc]. now apply H in Hin.
Qed.

(** ** The device path *)

Lemma strntake_all s : forall n,
  cstring s -> (String.length s <= n)%nat -> strntake n s = s.
Proof.
  induction s as [|c t IH]; intros [|n]; simpl; intros Hc Hn; try reflexivity; [lia|].
  destruct Hc as [Hc Ht]. apply Z.eqb_neq in Hc. rewrite Hc.
  f_equal. apply IH; [exact Ht|lia].
Qed.

Lemma strlen_length s : cstring s -> strlen s = String.length s.
Proof.
  induction s as [|c t IH]; simpl; [reflexivity|]. intros [Hc Ht].
  apply Z.eqb_neq in Hc. rewrite Hc. now rewrite IH.
Qed.

Lemma append_length s1 s2 :
  String.length (s1 ++ s2) = (String.length s1 + String.length s2)%nat.
Proof. induction s1 as [|c t IH]; simpl; [reflexivity|now rewrite IH]. Qed.

Lemma append_inj_l p s1 s2 : (p ++ s1)%string = (p ++ s2)%string -> s1 = s2.
Proof. induction p as [|c t IH]; simpl; [auto|]. intros [= H]. now apply IH. Qed.

Lemma until_nul_cstring mem : cstring (until_nul mem).
Proof.
  induction mem as [|c t IH]; simpl; [exact I|].
  destruct (chr c =? 0) eqn:E; simpl; [exact I|].
  split; [now apply Z.eqb_neq|exact IH].
Qed.

Lemma until_nul_app s mem : cstring s -> until_nul (s ++ mem) = (s ++ until_nul mem)%string.
Proof.
  induction s as [|c t IH]; simpl; [reflexivity|]. intros [Hc Ht].
  apply Z.eqb_neq in Hc. rewrite Hc. now rewrite IH.
Qed.

Lemma array_full s : forall n, String.length s = n -> array n s = s.
Proof.
  induction s as [|c t IH]; intros [|n]; simpl; try discriminate; [reflexivity|].
  intros [= H]. now rewrite IH.
Qed.

(** A C string read from an array that is not full ends in the array;
    read from a full array it runs on into the memory that follows. *)
Lemma until_nul_array_short s : forall n mem,
  cstring s -> (String.length s < n)%nat -> until_nul (array n s ++ mem) = s.
Proof.
  induction s as [|c t IH]; intros [|n] mem Hc Hl; simpl in *; try lia.
  - reflexivity.
  - destruct Hc as [Hc Ht]. apply Z.eqb_neq in Hc. rewrite Hc.
    f_equal. apply IH; [exact Ht|lia].
Qed.

Lemma until_nul_array_full n s mem :
  cstring s -> String.length s = n ->
  until_nul (array n s ++ mem) = (s ++ until_nul mem)%string.
Proof. intros Hc Hl. rewrite (array_full s n Hl). now apply until_nul_app. Qed.

Lemma until_nul_first n s mem :
  until_nul (array (S n) s ++ mem) = EmptyString <-> until_nul (array (S n) s) = EmptyString.
Proof.
  destruct s as [|c t]; simpl; [tauto|].
  destruct (chr c =? 0); [tauto|]. split; discriminate.
Qed.

Lemma strntake_cstring s : forall n,
  cstring s ->
  cstring (strntake n s)
  /\ String.length (strntake n s) = Nat.min n (String.length s).
Proof.
  induction s as [|c t IH]; intros [|n] Hc; simpl; auto.
  destruct Hc as [Hc Ht]. destruct (IH n Ht) as [IH1 IH2].
  pose proof Hc as Hc'. apply Z.eqb_neq in Hc'. rewrite Hc'. simpl.
  split; [split; assumption|now rewrite IH2].
Qed.

Lemma tty_path_length entry :
  cstring (tty_path_of entry)
  /\ tty_path_written entry = (6 + Nat.min 38 (String.length (ut_line entry)))%nat.
Proof.
  unfold tty_path_written, tty_path_of, strncat.
  destruct (strntake_cstring (ut_line entry) (6 + UT_LINESIZE)
              (until_nul_cstring _)) as [Hc Hl].
  assert (Hp : cstring ("/dev/" ++ strntake (6 + UT_LINESIZE) (ut_line entry)))
    by (simpl; repeat split; try discriminate; exact Hc).
  split; [exact Hp|].
  rewrite (strlen_length _ Hp), append_length, Hl. unfold UT_LINESIZE. simpl. lia.
Qed.

(** X2. [strncat] leaves in [tty_path] "/dev/", up to 38 characters of
    the line read from the record and a NUL: at most 44 bytes, and no
    more than the 38 bytes of the array exactly when the line read is at
    most UT_LINESIZE characters long; the path is then the line after
    "/dev/".  A line whose array is not full is read as it is.  When the
    array is full, the line read goes on with [ut_id] and what follows,
    and the write stays within [tty_path] exactly when [ut_id] starts
    with a NUL. *)
Theorem tty_path_in_buffer :
  (forall entry,
     cstring (tty_path_of entry)
     /\ tty_path_written entry = (6 + Nat.min 38 (String.length (ut_line entry)))%nat
     /\ (tty_path_written entry <= 44)%nat
     /\ ((tty_path_written entry <= 6 + UT_LINESIZE)%nat <-> line_fits entry)
     /\ (line_fits entry -> tty_path_of entry = ("/dev/" ++ ut_line entry)%string))
  /\ (forall type line id user host tail,
        cstring line ->
        let entry := mk_utmpx_record type line id user host tail in
        ((String.length line < UT_LINESIZE)%nat ->
           ut_line entry = line /\ line_fits entry)
        /\ (String.length line = UT_LINESIZE ->
              ut_line entry = (line ++ until_nul (array 4 id ++ memory_from_user entry))%string
              /\ (line_fits entry <-> until_nul (array 4 id) = EmptyString))).
Proof.
  split.
  - intros entry. destruct (tty_path_length entry) as [Hc Hw].
    split; [exact Hc|]. split; [exact Hw|]. unfold line_fits, UT_LINESIZE.
    split; [lia|]. split; [lia|].
    intros Hf. unfold tty_path_of, strncat.
    rewrite strntake_all; [reflexivity|apply until_nul_cstring|unfold UT_LINESIZE in *; lia].
  - intros type line id user host tail Hc entry. split.
    + intros Hl.
      assert (E : ut_line entry = line)
        by (unfold ut_line, memory_from_line, entry; cbn [ut_line_array];
            now apply until_nul_array_short).
      split; [exact E|]. unfold line_fits. rewrite E. lia.
    + intros Hl.
      assert (E : ut_line entry =
                  (line ++ until_nul (array 4 id ++ memory_from_user entry))%string)
        by (unfold ut_line, memory_from_line, entry at 1 2;
            cbn [ut_line_array ut_id_array]; now apply until_nul_array_full).
      split; [exact E|]. unfold line_fits. rewrite E, append_length, Hl.
      rewrite <- (until_nul_first 3 id (memory_from_user entry)).
      unfold UT_LINESIZE.
      destruct (until_nul (array 4 id ++ memory_from_user entry));
        cbn [String.length].
      * split; [reflexivity|lia].
      * split; [lia|discriminate].
Qed.

Lemma tty_path_in_buffer_witness :
  cstring "pts/1"
  /\ (String.length "pts/1" < UT_LINESIZE)%nat
  /\ ut_line (mk_utmpx_record USER_PROCESS "pts/1" "ts/1" "alice" "example.org" "") = "pts/1"
  /\ line_fits (mk_utmpx_record USER_PROCESS "pts/1" "ts/1" "alice" "example.org" "").
Proof.
  assert (H1 : cstring "pts/1") by (simpl; repeat split; discriminate).
  assert (H2 : (String.length "pts/1" < UT_LINESIZE)%nat)
    by (unfold UT_LINESIZE; simpl; lia).
  split; [exact H1|]. split; [exact H2|].
  exact (proj1 (proj2 tty_path_in_buffer USER_PROCESS "pts/1" "ts/1" "alice"
                  "example.org" "" H1) H2).
Defined.

(** ** Records that are not sessions *)

(** X3. An entry of the accounting file that is not a user process is
    passed over before its line is looked at: the scan gives what it
    gives without the entry, also when the program has no terminal. *)
Theorem other_records_skipped (o : options) (my_tty_path : option string)
    (fs : string -> option stat_t) (entry : utmpx) :
  ut_type entry <> USER_PROCESS ->
  (forall s, scan_entry o my_tty_path fs entry s = Next s)
  /\ forall before after s,
       scan o my_tty_path fs (before ++ entry :: after) s =
       scan o my_tty_path fs (before ++ after) s.
Proof.
  intros Ht.
  assert (He : forall s, scan_entry o my_tty_path fs entry s = Next s).
  { intros s. unfold scan_entry. apply Z.eqb_neq in Ht. now rewrite Ht. }
  split; [exact He|].
  induction before as [|b before IH]; intros after s; simpl.
  - now rewrite He.
  - destruct (scan_entry o my_tty_path fs b s) as [s1|s1]; simpl; [apply IH|reflexivity].
Qed.

Lemma other_records_skipped_witness :
  ut_type (mk_utmpx 2 "~" "reboot") <> USER_PROCESS
  /\ forall s, scan_entry (mk_options 1 1 1 1 (Some [])) None Example.fs_idle
                 (mk_utmpx 2 "~" "reboot") s = Next s.
Proof.
  assert (H : ut_type (mk_utmpx 2 "~" "reboot") <> USER_PROCESS) by discriminate.
  split; [exact H|].
  apply (other_records_skipped (mk_options 1 1 1 1 (Some [])) None Example.fs_idle
           (mk_utmpx 2 "~" "reboot") H).
Defined.

(** ** What a scan may write *)

Lemma reportable_watched o st t :
  reportable o st t = true -> watch_input o <> 0 \/ watch_output o <> 0.
Proof.
  unfold reportable. intros H. apply orb_true_iff in H.
  destruct H as [H|H]; apply andb_true_iff in H; destruct H as [H _];
    apply negb_true_iff, Z.eqb_neq in H; auto.
Qed.

Lemma report_output o entry s stamp :
  last_poll_string s = Some stamp ->
  exists s', report o entry s = Next s'
             /\ output s' = output s ++ report_events o stamp entry
             /\ tty_stat s' = tty_stat s.
Proof.
  intros Hs. unfold report, report_events, report_line. rewrite Hs.
  eexists. split; [reflexivity|]. destruct (bell o =? 0); simpl.
  - split; reflexivity.
  - rewrite <- app_assoc. split; reflexivity.
Qed.

Lemma scan_entry_output o tty fs entry s :
  output (step_state (scan_entry o tty fs entry s)) = output s
  \/ (output (step_state (scan_entry o tty fs entry s)) =
        output s ++ report_events o (stamp_of s) entry
      /\ may_report o tty entry).
Proof.
  unfold scan_entry.
  destruct (ut_type entry =? USER_PROCESS) eqn:Et; simpl negb; cbv iota; [|now left].
  apply Z.eqb_eq in Et.
  destruct tty as [mine|]; [|now left].
  destruct (strcmp mine (tty_path_of entry) =? 0) eqn:Em; [now left|].
  apply Z.eqb_neq in Em.
  assert (Ho : output (stat fs (tty_path_of entry) s) = output s
               /\ last_poll_string (stat fs (tty_path_of entry) s) = last_poll_string s)
    by (unfold stat; destruct (fs _); split; reflexivity).
  destruct Ho as [Ho Hl].
  destruct (reportable _ _ _) eqn:Er; [|left; exact Ho].
  destruct (watched_users o) as [users|] eqn:Eu; [|left; exact Ho].
  destruct (user_skipped users (ut_user entry)) eqn:Es; [left; exact Ho|].
  destruct (last_poll_string s) as [stamp|] eqn:Ep.
  - right. destruct (report_output o entry (stat fs (tty_path_of entry) s) stamp)
      as (s' & -> & Hs' & _); [congruence|].
    simpl. unfold stamp_of. rewrite Ep, Hs', Ho. split; [reflexivity|].
    repeat split; try assumption.
    + exists mine. auto.
    + exists users. split; [exact Eu|]. unfold user_passes. now rewrite Es.
    + eapply reportable_watched. exact Er.
  - left. unfold report. rewrite Hl. simpl. exact Ho.
Qed.

Lemma stamp_of_frame s s' : scan_frame s s' -> stamp_of s' = stamp_of s.
Proof. intros (_ & _ & H & _). unfold stamp_of. now rewrite H. Qed.

(** X4. When no line read from the records is longer than its array, so
    that no write leaves [tty_path], then whatever the devices answer a
    scan only adds report lines to the output, each after a bell when -b
    was given and never a bell otherwise.  A line carries the line and the
    owner as they are read from the record, and is written only for
    records it was given that are of a user process, whose path differs
    from the terminal of the program and whose owner, as read from the
    record, passes the user filter; with neither -i nor -o there is
    none. *)
Theorem scan_reports_only_sessions (o : options) (my_tty_path : option string)
    (fs : string -> option stat_t) (entries : list utmpx) (s : state) :
  Forall line_fits entries ->
  exists reported,
    output (step_state (scan o my_tty_path fs entries s)) =
      output s ++ flat_map (report_events o (stamp_of s)) reported
    /\ Forall (fun entry => In entry entries /\ may_report o my_tty_path entry)
              reported.
Proof.
  intros _. revert s. induction entries as [|entry rest IH]; intros s.
  - exists []. simpl. rewrite app_nil_r. split; [reflexivity|constructor].
  - cbn [scan].
    pose proof (scan_entry_output o my_tty_path fs entry s) as He.
    pose proof (scan_entry_frame o my_tty_path fs entry s) as Hf.
    apply stamp_of_frame in Hf.
    destruct (scan_entry o my_tty_path fs entry s) as [s1|s1]; simpl in He, Hf |- *.
    + destruct (IH s1) as (reported & Ho & Hr). rewrite Hf in Ho.
      assert (Hr' : Forall (fun e => In e (entry :: rest) /\ may_report o my_tty_path e)
                      reported)
        by (eapply Forall_impl; [|exact Hr]; simpl; intros e [? ?]; auto).
      destruct He as [He|[He Hm]].
      * exists reported. rewrite Ho, He. auto.
      * exists (entry :: reported). rewrite Ho, He. simpl. rewrite <- app_assoc.
        split; [reflexivity|]. constructor; [split; [now left|exact Hm]|exact Hr'].
    + destruct He as [He|[He Hm]].
      * exists []. simpl. rewrite app_nil_r. split; [exact He|constructor].
      * exists [entry]. simpl. rewrite app_nil_r. split; [exact He|].
        constructor; [split; [now left|exact Hm]|constructor].
Qed.

Lemma scan_reports_only_sessions_witness :
  let o := mk_options 1 1 0 1 (Some ["bob"]) in
  let s := mk_state 0 40 (Some "now") (mk_stat 0 0) 41 [] in
  Forall line_fits [Example.alice; Example.bob]
  /\ exists reported,
       output (step_state (scan o (Some "/dev/pts/0") Example.fs_idle
                             [Example.alice; Example.bob] s)) =
         output s ++ flat_map (report_events o (stamp_of s)) reported
       /\ Forall (fun entry => In entry [Example.alice; Example.bob]
                               /\ may_report o (Some "/dev/pts/0") entry) reported.
Proof.
  intros o s.
  assert (H : Forall line_fits [Example.alice; Example.bob])
    by (repeat constructor; unfold line_fits, UT_LINESIZE; simpl; lia).
  split; [exact H|].
  exact (scan_reports_only_sessions o (Some "/dev/pts/0") Example.fs_idle
           [Example.alice; Example.bob] s H).
Defined.

Lemma scan_entry_shown o mine users fs entry s stamp :
  watched_users o = Some users ->
  last_poll_string s = Some stamp ->
  (ut_type entry = USER_PROCESS ->
   strcmp mine (tty_path_of entry) <> 0 ->
   fs (tty_path_of entry) <> None) ->
  exists s', scan_entry o (Some mine) fs entry s = Next s'
             /\ output s' =
                  output s ++ (if shown o mine users fs (last_poll s) entry
                               then report_events o stamp entry else []).
Proof.
  intros Hu Hs Hfs. unfold scan_entry, shown.
  destruct (ut_type entry =? USER_PROCESS) eqn:Et; simpl negb; cbv iota.
  2:{ exists s. simpl. now rewrite app_nil_r. }
  apply Z.eqb_eq in Et.
  destruct (strcmp mine (tty_path_of entry) =? 0) eqn:Em.
  { exists s. simpl. now rewrite app_nil_r. }
  apply Z.eqb_neq in Em. specialize (Hfs Et Em).
  unfold stat. destruct (fs (tty_path_of entry)) as [st|]; [|congruence].
  cbn [tty_stat last_poll set_tty_stat]. rewrite Hu.
  destruct (reportable o st (last_poll s)).
  2:{ eexists. split; [reflexivity|]. simpl. now rewrite app_nil_r. }
  unfold user_passes. destruct (user_skipped users (ut_user entry)).
  { eexists. split; [reflexivity|]. simpl. now rewrite app_nil_r. }
  destruct (report_output o entry (set_tty_stat st s) stamp Hs) as (s' & Hr & Ho & _).
  exists s'. split; [exact Hr|]. exact Ho.
Qed.

(** When the program has a terminal and every device it probes can be
    read, the scan writes the reports of the sessions that are shown, in
    the order of the accounting file. *)
Lemma scan_shows_active_sessions (o : options) (mine : string)
    (users : list string) (fs : string -> option stat_t)
    (entries : list utmpx) (s : state) (stamp : string) :
  watched_users o = Some users ->
  last_poll_string s = Some stamp ->
  (forall entry, In entry entries ->
     ut_type entry = USER_PROCESS ->
     strcmp mine (tty_path_of entry) <> 0 ->
     fs (tty_path_of entry) <> None) ->
  exists s',
    scan o (Some mine) fs entries s = Next s'
    /\ output s' =
         output s ++
         flat_map (fun entry =>
                     if shown o mine users fs (last_poll s) entry
                     then report_events o stamp entry else []) entries.
Proof.
  intros Hu. revert s. induction entries as [|entry rest IH]; intros s Hs Hfs.
  - exists s. simpl. now rewrite app_nil_r.
  - cbn [scan flat_map].
    destruct (scan_entry_shown o mine users fs entry s stamp Hu Hs)
      as (s1 & He & Ho); [intros; apply Hfs; auto; now left|].
    pose proof (scan_entry_frame o (Some mine) fs entry s) as (_ & F2 & F3 & _).
    rewrite He in F2, F3 |- *. simpl in F2, F3. cbn [bind].
    destruct (IH s1) as (s' & Hr & Ho'); [congruence|intros; apply Hfs; auto; now right|].
    exists s'. split; [exact Hr|]. rewrite Ho', Ho, F2, <- app_assoc. reflexivity.
Qed.

(** ** What a run writes *)

Lemma stdout_events_app out1 out2 :
  stdout_events (out1 ++ out2) = stdout_events out1 ++ stdout_events out2.
Proof.
  induction out1 as [|e out1 IH]; simpl; [reflexivity|].
  destruct e; simpl; now rewrite ?IH.
Qed.

Lemma wrote_stderr_app out1 out2 :
  wrote_stderr (out1 ++ out2) = wrote_stderr out1 || wrote_stderr out2.
Proof.
  induction out1 as [|e out1 IH]; simpl; [reflexivity|].
  destruct e; simpl; now rewrite ?IH.
Qed.

Lemma report_events_quiet o stamp reported :
  wrote_stderr (flat_map (report_events o stamp) reported) = false.
Proof.
  induction reported as [|e rest IH]; simpl; [reflexivity|].
  rewrite wrote_stderr_app, IH. unfold report_events.
  now destruct (bell o =? 0).
Qed.

(** A scan writes nothing to the error stream. *)
Lemma scan_quiet o tty fs entries : forall s,
  wrote_stderr (output (step_state (scan o tty fs entries s))) =
  wrote_stderr (output s).
Proof.
  induction entries as [|entry rest IH]; intros s; [reflexivity|].
  cbn [scan].
  assert (He : wrote_stderr (output (step_state (scan_entry o tty fs entry s))) =
               wrote_stderr (output s)).
  { destruct (scan_entry_output o tty fs entry s) as [->|[-> _]]; [reflexivity|].
    rewrite wrote_stderr_app.
    pose proof (report_events_quiet o (stamp_of s) [entry]) as Hq.
    simpl in Hq. rewrite app_nil_r in Hq. rewrite Hq. apply orb_false_r. }
  destruct (scan_entry o tty fs entry s) as [s1|s1]; simpl in *;
    [rewrite IH|]; exact He.
Qed.

(** A cycle writes nothing to the error stream. *)
Lemma poll_cycle_quiet ctime o tty c s :
  wrote_stderr (output (step_state (poll_cycle ctime o tty c s))) =
  wrote_stderr (output s).
Proof.
  destruct (poll_cycle_shape ctime o tty c s) as (s2 & -> & _ & _ & _ & Ho).
  assert (H : wrote_stderr (output (step_state (scan o tty (fs c) (utmp c) s2))) =
              wrote_stderr (output s)).
  { rewrite scan_quiet, Ho, wrote_stderr_app. simpl. apply orb_false_r. }
  destruct (scan o tty (fs c) (utmp c) s2); exact H.
Qed.

(** Without -i and -o a scan writes nothing. *)
Lemma scan_unwatched o tty fs entries : forall s,
  watch_input o = 0 -> watch_output o = 0 ->
  output (step_state (scan o tty fs entries s)) = output s.
Proof.
  induction entries as [|entry rest IH]; intros s Hi Ho; [reflexivity|].
  cbn [scan].
  assert (He : output (step_state (scan_entry o tty fs entry s)) = output s).
  { destruct (scan_entry_output o tty fs entry s) as [H|[_ (_ & _ & _ & [H|H])]];
      [exact H|contradiction|contradiction]. }
  destruct (scan_entry o tty fs entry s) as [s1|s1]; simpl in *;
    [rewrite IH by assumption|]; exact He.
Qed.

Lemma main_loop_quiet ctime o tty cs : forall s s',
  outcome_state (main_loop ctime o tty cs s) = Some s' ->
  wrote_stderr (output s') = wrote_stderr (output s).
Proof.
  induction cs as [|c rest IH]; intros s s'; simpl.
  - now intros [= <-].
  - pose proof (poll_cycle_quiet ctime o tty c s) as H.
    destruct (poll_cycle ctime o tty c s) as [s1|s1]; simpl in H.
    + destruct (signal_caught_sigint s1 =? 0).
      * intros H'. rewrite (IH _ _ H'). exact H.
      * now intros [= <-].
    + now intros [= <-].
Qed.

(** X5. Without -i and without -o a run of the loop writes nothing to
    the standard output, whatever the sessions and their devices do. *)
Theorem nothing_watched_nothing_written (ctime : Z -> string) (o : options)
    (my_tty_path : option string) (cs : list cycle_env) (s s' : state) :
  watch_input o = 0 -> watch_output o = 0 ->
  outcome_state (main_loop ctime o my_tty_path cs s) = Some s' ->
  stdout_events (output s') = stdout_events (output s).
Proof.
  intros Hi Ho. revert s s'.
  assert (Hc : forall c s,
             stdout_events (output (step_state (poll_cycle ctime o my_tty_path c s))) =
             stdout_events (output s)).
  { intros c s.
    destruct (poll_cycle_shape ctime o my_tty_path c s) as (s2 & -> & _ & _ & _ & Hout).
    pose proof (scan_unwatched o my_tty_path (fs c) (utmp c) s2 Hi Ho) as Hr.
    assert (H : stdout_events (output (step_state (scan o my_tty_path (fs c) (utmp c) s2))) =
                stdout_events (output s)).
    { rewrite Hr, Hout, stdout_events_app. simpl. apply app_nil_r. }
    destruct (scan o my_tty_path (fs c) (utmp c) s2); exact H. }
  induction cs as [|c rest IH]; intros s s'; simpl.
  - now intros [= <-].
  - specialize (Hc c s).
    destruct (poll_cycle ctime o my_tty_path c s) as [s1|s1]; simpl in Hc.
    + destruct (signal_caught_sigint s1 =? 0).
      * intros H'. rewrite (IH _ _ H'). exact Hc.
      * now intros [= <-].
    + now intros [= <-].
Qed.

Lemma nothing_watched_nothing_written_witness :
  watch_input (mk_options 1 0 0 1 (Some [])) = 0
  /\ watch_output (mk_options 1 0 0 1 (Some [])) = 0
  /\ forall s',
       outcome_state (main_loop Example.ctime (mk_options 1 0 0 1 (Some []))
                        (Some "/dev/pts/0") (cycles Example.env_vanished)
                        (initial_state Example.env_vanished [])) = Some s' ->
       stdout_events (output s') = [].
Proof.
  split; [reflexivity|]. split; [reflexivity|].
  intros s'.
  exact (nothing_watched_nothing_written Example.ctime (mk_options 1 0 0 1 (Some []))
           (Some "/dev/pts/0") (cycles Example.env_vanished)
           (initial_state Example.env_vanished []) s' eq_refl eq_refl).
Defined.

(** ** Idle terminals *)

Lemma older_not_reportable o st t0 t :
  older_than t0 st -> t0 <= t -> reportable o st t = false.
Proof.
  intros [Ha Hm] Ht. unfold reportable.
  assert (E1 : (st_atime st >=? t) = false)
    by (destruct (st_atime st >=? t) eqn:E; [apply Z.geb_le in E; lia|reflexivity]).
  assert (E2 : (st_mtime st >=? t) = false)
    by (destruct (st_mtime st >=? t) eqn:E; [apply Z.geb_le in E; lia|reflexivity]).
  now rewrite E1, E2, !andb_false_r.
Qed.

Lemma scan_entry_idle o tty fs entry s t0 :
  (forall path st, fs path = Some st -> older_than t0 st) ->
  older_than t0 (tty_stat s) -> t0 <= last_poll s ->
  output (step_state (scan_entry o tty fs entry s)) = output s
  /\ older_than t0 (tty_stat (step_state (scan_entry o tty fs entry s))).
Proof.
  intros Hfs Hb Ht. unfold scan_entry.
  destruct (negb (ut_type entry =? USER_PROCESS)); [now split|].
  destruct tty as [mine|]; [|now split].
  destruct (strcmp mine (tty_path_of entry) =? 0); [now split|].
  assert (Hs : output (stat fs (tty_path_of entry) s) = output s
               /\ older_than t0 (tty_stat (stat fs (tty_path_of entry) s))
               /\ last_poll (stat fs (tty_path_of entry) s) = last_poll s).
  { unfold stat. destruct (fs (tty_path_of entry)) as [st|] eqn:E; simpl.
    - repeat split; apply (Hfs _ _ E).
    - repeat split; apply Hb. }
  destruct Hs as (H1 & H2 & H3).
  rewrite (older_not_reportable o _ t0 _ H2) by lia. now split.
Qed.

Lemma scan_idle o tty fs entries t0 : forall s,
  (forall path st, fs path = Some st -> older_than t0 st) ->
  older_than t0 (tty_stat s) -> t0 <= last_poll s ->
  output (step_state (scan o tty fs entries s)) = output s
  /\ older_than t0 (tty_stat (step_state (scan o tty fs entries s))).
Proof.
  induction entries as [|entry rest IH]; intros s Hfs Hb Ht; [now split|].
  cbn [scan].
  destruct (scan_entry_idle o tty fs entry s t0 Hfs Hb Ht) as [Ho Hb'].
  pose proof (scan_entry_frame o tty fs entry s) as (_ & F2 & _).
  destruct (scan_entry o tty fs entry s) as [s1|s1]; simpl in *; [|now split].
  destruct (IH s1 Hfs Hb') as [Ho' Hb'']; [lia|]. split; [congruence|exact Hb''].
Qed.

Lemma poll_cycle_idle ctime o tty c s t0 :
  0 <= slept c -> 0 <= scanned c ->
  (forall path st, fs c path = Some st -> older_than t0 st) ->
  older_than t0 (tty_stat s) -> t0 <= clock s ->
  stdout_events (output (step_state (poll_cycle ctime o tty c s))) =
    stdout_events (output s)
  /\ older_than t0 (tty_stat (step_state (poll_cycle ctime o tty c s)))
  /\ t0 <= clock (step_state (poll_cycle ctime o tty c s)).
Proof.
  intros Hsl Hsc Hfs Hb Ht. unfold poll_cycle.
  set (s2 := if sigint c then signal_sigint (poll_begin ctime o c s)
             else poll_begin ctime o c s).
  assert (H2 : tty_stat s2 = tty_stat s /\ last_poll s2 = clock s
               /\ clock s2 = clock s + slept c
               /\ stdout_events (output s2) = stdout_events (output s)).
  { unfold s2. destruct (sigint c); simpl; rewrite !stdout_events_app; simpl;
      rewrite !app_nil_r; repeat split; reflexivity. }
  destruct H2 as (B2 & L2 & K2 & O2).
  destruct (scan_idle o tty (fs c) (utmp c) t0 s2 Hfs) as [Ho Hb'];
    [now rewrite B2|lia|].
  pose proof (scan_scan_frame o tty (fs c) (utmp c) s2) as (_ & _ & _ & F4 & _).
  destruct (scan o tty (fs c) (utmp c) s2) as [s3|s3]; simpl in *;
    (split; [congruence|split; [exact Hb'|lia]]).
Qed.

(** X6. When no device was touched since the loop was entered, and the
    memory of [tty_stat] holds older times too, a run whose clock does not
    go back writes nothing to the standard output: idle sessions are
    never reported, cycle after cycle. *)
Theorem idle_sessions_never_reported (ctime : Z -> string) (o : options)
    (my_tty_path : option string) (cs : list cycle_env) (s s' : state) :
  clock_nondecreasing cs ->
  idle_since (clock s) cs ->
  older_than (clock s) (tty_stat s) ->
  outcome_state (main_loop ctime o my_tty_path cs s) = Some s' ->
  stdout_events (output s') = stdout_events (output s).
Proof.
  intros Hcs Hidle Hb.
  assert (Ht : clock s <= clock s) by lia.
  revert Hidle Hb Ht. generalize (clock s) at 1 2 3 as t0. intros t0.
  revert s s' Hcs. induction cs as [|c rest IH]; intros s s' Hcs Hidle Hb Ht; simpl.
  - now intros [= <-].
  - inversion Hcs as [|? ? [Hsl Hsc] Hrest]; subst.
    inversion Hidle as [|? ? Hfs Hidle']; subst.
    destruct (poll_cycle_idle ctime o my_tty_path c s t0 Hsl Hsc Hfs Hb Ht)
      as (Ho & Hb1 & Ht1).
    destruct (poll_cycle ctime o my_tty_path c s) as [s1|s1]; simpl in *.
    + destruct (signal_caught_sigint s1 =? 0).
      * intros H'. rewrite (IH s1 s' Hrest Hidle' Hb1 Ht1 H'). exact Ho.
      * now intros [= <-].
    + now intros [= <-].
Qed.

Lemma idle_sessions_never_reported_witness :
  let o := mk_options 1 1 1 0 (Some []) in
  let s := initial_state Example.env_two_cycles [] in
  clock_nondecreasing (cycles Example.env_two_cycles)
  /\ idle_since (clock s) (cycles Example.env_two_cycles)
  /\ older_than (clock s) (tty_stat s)
  /\ forall s',
       outcome_state (main_loop Example.ctime o (Some "/dev/pts/0")
                        (cycles Example.env_two_cycles) s) = Some s' ->
       stdout_events (output s') = [].
Proof.
  intros o s.
  assert (H1 : clock_nondecreasing (cycles Example.env_two_cycles))
    by (repeat constructor; simpl; lia).
  assert (Hfs : forall path st, Example.fs_idle path = Some st -> older_than 100 st).
  { intros path st. unfold Example.fs_idle.
    destruct (_ || _); [|discriminate]. intros [= <-]. split; simpl; lia. }
  assert (H2 : idle_since (clock s) (cycles Example.env_two_cycles))
    by (constructor; [exact Hfs|constructor; [exact Hfs|constructor]]).
  assert (H3 : older_than (clock s) (tty_stat s)) by (split; simpl; lia).
  split; [exact H1|]. split; [exact H2|]. split; [exact H3|].
  intros s'.
  exact (idle_sessions_never_reported Example.ctime o (Some "/dev/pts/0")
           (cycles Example.env_two_cycles) s s' H1 H2 H3).
Defined.

(** ** Leaving the loop *)

Lemma poll_cycle_flag ctime o tty c s :
  signal_caught_sigint (step_state (poll_cycle ctime o tty c s)) =
  if sigint c then 1 else signal_caught_sigint s.
Proof.
  unfold poll_cycle.
  set (s2 := if sigint c then signal_sigint (poll_begin ctime o c s)
             else poll_begin ctime o c s).
  assert (H2 : signal_caught_sigint s2 = if sigint c then 1 else signal_caught_sigint s)
    by (unfold s2; destruct (sigint c); reflexivity).
  pose proof (scan_scan_frame o tty (fs c) (utmp c) s2) as (F1 & _).
  destruct (scan o tty (fs c) (utmp c) s2); simpl in *; congruence.
Qed.

(** X7. The loop is left through its end only after an interrupt: when
    [main_loop] returns, the status is 0, the flag is 1 and the cycle that
    just ended is the first one in which SIGINT arrived. *)
Theorem exit_needs_interrupt (ctime : Z -> string) (o : options)
    (my_tty_path : option string) (cs : list cycle_env) (s s' : state)
    (status : Z) :
  signal_caught_sigint s = 0 ->
  main_loop ctime o my_tty_path cs s = Exited status s' ->
  status = 0
  /\ signal_caught_sigint s' = 1
  /\ exists before c after,
       cs = before ++ c :: after
       /\ sigint c = true
       /\ Forall (fun c' => sigint c' = false) before
       /\ List.length (poll_times (output s')) =
            (List.length (poll_times (output s)) + List.length before + 1)%nat.
Proof.
  revert s. induction cs as [|c rest IH]; intros s Hs; simpl; [discriminate|].
  pose proof (poll_cycle_flag ctime o my_tty_path c s) as Hf.
  destruct (poll_cycle_state ctime o my_tty_path c s) as (_ & Hp & _).
  destruct (poll_cycle ctime o my_tty_path c s) as [s1|s1]; [|discriminate].
  simpl in Hf, Hp.
  destruct (sigint c) eqn:Ec.
  - rewrite Hf. simpl. intros [= <- <-]. repeat split; [exact Hf|].
    exists [], c, rest. repeat split; [exact Ec|constructor|].
    rewrite Hp, length_app. simpl. lia.
  - rewrite Hf, Hs. simpl. intros H.
    destruct (IH s1 (eq_trans Hf Hs) H)
      as (H0 & H1 & before & c' & after & -> & Hc' & Hb & Hl).
    repeat split; [exact H0|exact H1|].
    exists (c :: before), c', after. repeat split; [exact Hc'|now constructor|].
    rewrite Hl, Hp, length_app. simpl. lia.
Qed.

Lemma exit_needs_interrupt_witness :
  signal_caught_sigint (initial_state Example.env_two_cycles []) = 0
  /\ exists s',
       main_loop Example.ctime (mk_options 1 1 0 0 (Some [])) (Some "/dev/pts/0")
         (cycles Example.env_two_cycles) (initial_state Example.env_two_cycles [])
       = Exited 0 s'
       /\ signal_caught_sigint s' = 1.
Proof.
  split; [reflexivity|].
  eexists. split; [vm_compute; reflexivity|].
  eapply (exit_needs_interrupt Example.ctime (mk_options 1 1 0 0 (Some []))
            (Some "/dev/pts/0") (cycles Example.env_two_cycles)
            (initial_state Example.env_two_cycles []) _ 0 eq_refl).
  vm_compute. reflexivity.
Defined.

(** X8. No cycle starts after the one in which SIGINT arrived: what
    follows it in the description of the run changes nothing. *)
Theorem nothing_after_interrupt (ctime : Z -> string) (o : options)
    (my_tty_path : option string) (before after : list cycle_env)
    (c : cycle_env) (s : state) :
  sigint c = true ->
  main_loop ctime o my_tty_path (before ++ c :: after) s =
  main_loop ctime o my_tty_path (before ++ [c]) s.
Proof.
  intros Hc. revert s. induction before as [|b before IH]; intros s; simpl.
  - pose proof (poll_cycle_flag ctime o my_tty_path c s) as Hf. rewrite Hc in Hf.
    destruct (poll_cycle ctime o my_tty_path c s) as [s1|s1]; [|reflexivity].
    simpl in Hf. now rewrite Hf.
  - destruct (poll_cycle ctime o my_tty_path b s) as [s1|s1]; [|reflexivity].
    destruct (signal_caught_sigint s1 =? 0); [apply IH|reflexivity].
Qed.

Lemma nothing_after_interrupt_witness :
  sigint (mk_cycle 1 0 [Example.alice] Example.fs_idle true) = true
  /\ forall after s,
       main_loop Example.ctime (mk_options 1 1 0 0 (Some [])) (Some "/dev/pts/0")
         ([] ++ mk_cycle 1 0 [Example.alice] Example.fs_idle true :: after) s =
       main_loop Example.ctime (mk_options 1 1 0 0 (Some [])) (Some "/dev/pts/0")
         ([] ++ [mk_cycle 1 0 [Example.alice] Example.fs_idle true]) s.
Proof.
  split; [reflexivity|]. intros after s.
  exact (nothing_after_interrupt Example.ctime (mk_options 1 1 0 0 (Some []))
           (Some "/dev/pts/0") [] after
           (mk_cycle 1 0 [Example.alice] Example.fs_idle true) s eq_refl).
Defined.

(** ** What option parsing returns *)

Lemma options_parse_loop_outcomes argv : forall fuel g o r o' out',
  options_parse_loop fuel argv g o [] = Some (r, o', out') ->
  watched_users o = None ->
  parsed_outcome argv r o' out'.
Proof.
  unfold parsed_outcome.
  induction fuel as [|fuel IH]; intros g o r o' out'; [discriminate|].
  simpl. destruct (getopt argv "bhiot:" g) as [c g'].
  repeat match goal with
         | |- (if ?b then _ else _) = _ -> _ => destruct b
         | |- (let '(_, _) := ?p in _) = _ -> _ => destruct p as [? [?|]]
         | |- Some _ = Some _ -> _ =>
             intros [= <- <- <-]; intros Hw;
             first [ left; split; [reflexivity|]; split; [reflexivity|];
                     eexists; reflexivity
                   | right; left; split; [reflexivity|]; split; [reflexivity|];
                     exact Hw
                   | right; right; split; [reflexivity|]; split;
                     [eexists; reflexivity|exact Hw] ]
         | |- options_parse_loop fuel _ _ _ _ = _ -> _ =>
             intros H Hw; exact (IH _ _ _ _ _ H Hw)
         end.
Qed.

(** X9. Option parsing ends in one of three ways, as its header says:
    it returns 0, has written nothing and the users are the elements of
    the command line from some index on; or it returns 1 and has written
    the usage text, only that, to the standard output; or it returns -1
    and has written one diagnostic, only that, to the error stream.  In
    the last two cases the users are still NULL. *)
Theorem options_parse_outcomes (argv : list string) :
  exists r o out,
    options_parse argv = Some (r, o, out) /\ parsed_outcome argv r o out.
Proof.
  destruct (options_parse argv) as [[[r o] out]|] eqn:E.
  - exists r, o, out. split; [reflexivity|].
    unfold options_parse in E.
    exact (options_parse_loop_outcomes _ _ _ _ _ _ _ E eq_refl).
  - exfalso. exact (options_parse_returns argv E).
Qed.

(** ** Exit statuses and diagnostics *)

Lemma main_loop_exited ctime o tty cs : forall s s' status,
  signal_caught_sigint s = 0 ->
  main_loop ctime o tty cs s = Exited status s' ->
  status = 0 /\ signal_caught_sigint s' = 1 /\ poll_times (output s') <> [].
Proof.
  induction cs as [|c rest IH]; intros s s' status Hs; simpl; [discriminate|].
  pose proof (poll_cycle_flag ctime o tty c s) as Hf.
  destruct (poll_cycle_state ctime o tty c s) as (_ & Hp & _).
  destruct (poll_cycle ctime o tty c s) as [s1|s1]; [|discriminate].
  simpl in Hf, Hp. destruct (sigint c).
  - rewrite Hf. simpl. intros [= <- <-]. repeat split; [exact Hf|].
    rewrite Hp. now destruct (poll_times (output s)).
  - rewrite Hf, Hs. simpl. apply IH. congruence.
Qed.

(** X10. A run that wrote to the error stream is a run that stopped in
    option parsing: it wrote one diagnostic and nothing else, polled
    nothing and ended with EXIT_FAILURE. *)
Theorem diagnostic_means_failure (ctime : Z -> string) (argv : list string)
    (env : environment) (s' : state) :
  outcome_state (main ctime argv env) = Some s' ->
  wrote_stderr (output s') = true ->
  exists msg,
    main ctime argv env = Exited EXIT_FAILURE (initial_state env [Stderr msg]).
Proof.
  unfold main.
  destruct (options_parse argv) as [[[r o] out]|] eqn:E;
    [|exfalso; exact (options_parse_returns argv E)].
  pose proof (options_parse_loop_outcomes _ _ _ _ _ _ _ E eq_refl) as Hp.
  destruct Hp as [(-> & -> & _)|[(-> & -> & _)|(-> & [msg ->] & _)]]; simpl.
  - intros H Hw. apply main_loop_quiet in H. simpl in H. congruence.
  - intros [= <-]. discriminate.
  - intros _ _. now exists msg.
Qed.

Lemma diagnostic_means_failure_witness :
  exists s',
    outcome_state (main Example.ctime ["actspy"; "-x"] Example.env_vanished) = Some s'
    /\ wrote_stderr (output s') = true
    /\ exists msg,
         main Example.ctime ["actspy"; "-x"] Example.env_vanished =
         Exited EXIT_FAILURE (initial_state Example.env_vanished [Stderr msg]).
Proof.
  eexists. split; [vm_compute; reflexivity|]. split; [reflexivity|].
  apply (diagnostic_means_failure Example.ctime ["actspy"; "-x"] Example.env_vanished
           _ eq_refl eq_refl).
Defined.

(** X11. When [main] returns, the status is EXIT_FAILURE and all that was
    written is the usage text or one diagnostic, with nothing polled; or
    the status is 0, SIGINT was caught, at least one cycle was run and
    nothing was written to the error stream. *)
Theorem exit_statuses (ctime : Z -> string) (argv : list string)
    (env : environment) (status : Z) (s' : state) :
  main ctime argv env = Exited status s' ->
  (status = EXIT_FAILURE
   /\ (output s' = [Stdout (usage (argv0 argv))] \/ exists msg, output s' = [Stderr msg]))
  \/ (status = 0
      /\ signal_caught_sigint s' = 1
      /\ poll_times (output s') <> []
      /\ wrote_stderr (output s') = false).
Proof.
  unfold main.
  destruct (options_parse argv) as [[[r o] out]|] eqn:E;
    [|exfalso; exact (options_parse_returns argv E)].
  pose proof (options_parse_loop_outcomes _ _ _ _ _ _ _ E eq_refl) as Hp.
  destruct Hp as [(-> & -> & _)|[(-> & -> & _)|(-> & [msg ->] & _)]]; simpl.
  - intros H. right.
    destruct (main_loop_exited ctime o _ _ (initial_state env []) s' status eq_refl H)
      as (-> & Hf & Hl).
    repeat split; [exact Hf|exact Hl|].
    + assert (Hs : outcome_state (main_loop ctime o (ttyname_stdout env) (cycles env)
                                    (initial_state env [])) = Some s')
        by now rewrite H.
      now apply main_loop_quiet in Hs.
  - intros [= <- <-]. left. split; [reflexivity|now left].
  - intros [= <- <-]. left. split; [reflexivity|right; now exists msg].
Qed.

Lemma exit_statuses_witness :
  exists s',
    main Example.ctime ["actspy"; "-i"] Example.env_vanished = Exited 0 s'
    /\ signal_caught_sigint s' = 1.
Proof.
  eexists. split; [vm_compute; reflexivity|].
  destruct (exit_statuses Example.ctime ["actspy"; "-i"] Example.env_vanished 0 _ eq_refl)
    as [[H _]|(_ & H & _)]; [discriminate H|exact H].
Defined.

(** ** Command lines that start with flags *)

Lemma getopt_flag_char argv g f rest :
  getopt_char argv "bhiot:" g (flag_char f) rest =
  (chr (flag_char f), getopt_advance g rest).
Proof. destruct f; reflexivity. Qed.

Lemma loop_flag_step argv fuel g g' f o out :
  getopt argv "bhiot:" g = (chr (flag_char f), g') ->
  options_parse_loop (S fuel) argv g o out =
  options_parse_loop fuel argv g' (apply_flag o f) out.
Proof. intros H. cbn [options_parse_loop]. rewrite H. now destruct f. Qed.

Lemma loop_flags_inner argv : forall l fuel g o out,
  l <> [] ->
  nextchar g = flag_string l ->
  options_parse_loop (List.length l + fuel) argv g o out =
  options_parse_loop fuel argv (mk_getopt (S (optind g)) "" (optarg g) (optopt g))
    (fold_left apply_flag l o) out.
Proof.
  induction l as [|f r IH]; intros fuel g o out Hne Hn; [congruence|].
  cbn [List.length Nat.add fold_left].
  assert (Hg : getopt argv "bhiot:" g =
               (chr (flag_char f), getopt_advance g (flag_string r)))
    by (unfold getopt; rewrite Hn; cbn [flag_string]; apply getopt_flag_char).
  rewrite (loop_flag_step _ _ _ _ _ _ _ Hg).
  destruct r as [|f2 r2]; [reflexivity|].
  rewrite IH; [reflexivity|discriminate|reflexivity].
Qed.

Lemma loop_flag_arg argv l fuel g o out :
  l <> [] ->
  nextchar g = "" ->
  nth_error argv (optind g) = Some (flag_arg l) ->
  options_parse_loop (List.length l + fuel) argv g o out =
  options_parse_loop fuel argv (mk_getopt (S (optind g)) "" (optarg g) (optopt g))
    (fold_left apply_flag l o) out.
Proof.
  intros Hne Hn Ha. destruct l as [|f r]; [congruence|].
  cbn [List.length Nat.add fold_left].
  assert (Hg : getopt argv "bhiot:" g =
               (chr (flag_char f), getopt_advance g (flag_string r))).
  { unfold getopt. rewrite Hn, Ha. cbn [flag_arg flag_string].
    change (Ascii.eqb "-" "-") with true. cbv iota.
    replace (Ascii.eqb (flag_char f) "-") with false by now destruct f.
    cbn [andb]. apply getopt_flag_char. }
  rewrite (loop_flag_step _ _ _ _ _ _ _ Hg).
  destruct r as [|f2 r2]; [reflexivity|].
  rewrite loop_flags_inner; [reflexivity|discriminate|reflexivity].
Qed.

Lemma loop_flag_args : forall clusters pre tl fuel o out oa oo,
  Forall (fun l => l <> []) clusters ->
  options_parse_loop (List.length (List.concat clusters) + fuel)
    (pre ++ map flag_arg clusters ++ tl) (mk_getopt (List.length pre) "" oa oo) o out =
  options_parse_loop fuel (pre ++ map flag_arg clusters ++ tl)
    (mk_getopt (List.length pre + List.length clusters) "" oa oo)
    (fold_left apply_flag (List.concat clusters) o) out.
Proof.
  induction clusters as [|l rest IH]; intros pre tl fuel o out oa oo Hne.
  - simpl. now rewrite Nat.add_0_r.
  - inversion Hne as [|? ? Hl Hrest]; subst.
    cbn [List.concat map]. rewrite length_app, fold_left_app, <- Nat.add_assoc.
    rewrite (loop_flag_arg _ l); [|exact Hl|reflexivity|].
    + cbn [optind optarg optopt].
      assert (E : pre ++ (flag_arg l :: map flag_arg rest) ++ tl =
                  (pre ++ [flag_arg l]) ++ map flag_arg rest ++ tl)
        by (rewrite <- app_assoc; reflexivity).
      rewrite E.
      replace (S (List.length pre)) with (List.length (pre ++ [flag_arg l]))
        by (rewrite length_app; simpl; lia).
      rewrite IH by exact Hrest.
      rewrite length_app. cbn [List.length]. f_equal. f_equal. lia.
    + cbn [optind]. rewrite nth_error_app2 by lia.
      now rewrite Nat.sub_diag.
Qed.

Lemma flag_value_snoc f g l :
  flag_value f (l ++ [g]) = if flag_eqb f g then 1 else flag_value f l.
Proof.
  unfold flag_value. rewrite existsb_app. simpl. rewrite orb_false_r.
  destruct (existsb (flag_eqb f) l), (flag_eqb f g); reflexivity.
Qed.

Lemma apply_flags_options interval users : forall l l0,
  fold_left apply_flag l (flags_options interval l0 users) =
  flags_options interval (l0 ++ l) users.
Proof.
  induction l as [|f r IH]; intros l0; simpl; [now rewrite app_nil_r|].
  replace (apply_flag (flags_options interval l0 users) f)
    with (flags_options interval (l0 ++ [f]) users).
  - rewrite IH, <- app_assoc. reflexivity.
  - unfold flags_options. rewrite !flag_value_snoc. now destruct f.
Qed.

(** After the groups of flags the loop is at the element that follows
    them, with the options the flags give. *)
Lemma after_flags prog clusters tl fuel r :
  Forall (fun l => l <> []) clusters ->
  options_parse_loop fuel (prog :: map flag_arg clusters ++ tl)
    (mk_getopt (S (List.length clusters)) "" None (chr "?"))
    (flags_options 1 (List.concat clusters) None) [] = Some r ->
  options_parse (prog :: map flag_arg clusters ++ tl) = Some r.
Proof.
  intros Hne H.
  apply (options_parse_by_fuel (List.length (List.concat clusters) + fuel)).
  pose proof (loop_flag_args clusters [prog] tl fuel options_default [] None (chr "?") Hne)
    as Hl.
  cbn [List.length Nat.add app] in Hl. unfold getopt_init. rewrite Hl.
  change options_default with (flags_options 1 [] None).
  now rewrite apply_flags_options.
Qed.

Lemma nth_after_flags prog clusters tl k :
  nth_error (prog :: map flag_arg clusters ++ tl) (S (List.length clusters + k)) =
  nth_error tl k.
Proof.
  cbn [nth_error]. rewrite nth_error_app2 by (rewrite length_map; lia).
  rewrite length_map. f_equal. lia.
Qed.

Lemma skipn_after_flags prog clusters tl k :
  skipn (S (List.length clusters + k)) (prog :: map flag_arg clusters ++ tl) =
  skipn k tl.
Proof.
  cbn [skipn]. rewrite skipn_app, length_map.
  rewrite skipn_all2 by (rewrite length_map; lia).
  simpl. f_equal. lia.
Qed.

Lemma nth_after_flags0 prog clusters tl :
  nth_error (prog :: map flag_arg clusters ++ tl) (S (List.length clusters)) =
  nth_error tl 0.
Proof. rewrite <- (nth_after_flags prog clusters tl 0). f_equal. lia. Qed.

Lemma nth_after_flags1 prog clusters tl :
  nth_error (prog :: map flag_arg clusters ++ tl) (S (S (List.length clusters))) =
  nth_error tl 1.
Proof. rewrite <- (nth_after_flags prog clusters tl 1). f_equal. lia. Qed.

Lemma skipn_after_flags0 prog clusters tl :
  skipn (S (List.length clusters)) (prog :: map flag_arg clusters ++ tl) = tl.
Proof.
  rewrite <- (skipn_after_flags prog clusters tl 0) at 2.
  f_equal. lia.
Qed.

Lemma skipn_after_flags1 prog clusters tl :
  skipn (S (S (List.length clusters))) (prog :: map flag_arg clusters ++ tl) =
  skipn 1 tl.
Proof. rewrite <- (skipn_after_flags prog clusters tl 1). f_equal. lia. Qed.

Lemma skipn_after_flags2 prog clusters tl :
  skipn (S (S (S (List.length clusters)))) (prog :: map flag_arg clusters ++ tl) =
  skipn 2 tl.
Proof. rewrite <- (skipn_after_flags prog clusters tl 2). f_equal. lia. Qed.

Lemma getopt_at_operand argv g :
  nextchar g = "" ->
  match nth_error argv (optind g) with
  | None => True
  | Some u => is_operand u = true
  end ->
  getopt argv "bhiot:" g = (-1, g).
Proof.
  intros Hn Hu. unfold getopt. rewrite Hn.
  destruct (nth_error argv (optind g)) as [[|d [|c rest]]|]; try reflexivity.
  simpl in Hu. apply negb_true_iff in Hu. now rewrite Hu.
Qed.

Lemma operands_nth users :
  operands users ->
  match nth_error users 0 with
  | None => True
  | Some u => is_operand u = true
  end.
Proof. destruct users; simpl; auto. Qed.

(** X12. A command line of groups of the flags b, i and o followed by
    user names is parsed in silence: the result is 0, each field is 1
    exactly when its letter occurs in some group, in whatever order and
    however often, the interval is the default 1, and the users are the
    names.  After "--" every element is a user name. *)
Theorem flags_then_users (prog : string) (clusters : list (list flag))
    (users : list string) :
  Forall (fun l => l <> []) clusters ->
  (operands users ->
   options_parse (prog :: map flag_arg clusters ++ users) =
     Some (0, flags_options 1 (List.concat clusters) (Some users), []))
  /\ options_parse (prog :: map flag_arg clusters ++ "--" :: users) =
       Some (0, flags_options 1 (List.concat clusters) (Some users), []).
Proof.
  intros Hne. split.
  - intros Hu. apply (after_flags prog clusters users 1); [exact Hne|].
    cbn [options_parse_loop].
    rewrite getopt_at_operand;
      [|reflexivity|cbn [optind]; rewrite nth_after_flags0; now apply operands_nth].
    change (-1 =? -1) with true. cbv iota. cbn [optind].
    now rewrite skipn_after_flags0.
  - apply (after_flags prog clusters ("--" :: users) 1); [exact Hne|].
    cbn [options_parse_loop]. unfold getopt. cbn [nextchar optind].
    rewrite nth_after_flags0. cbn [nth_error].
    change (Ascii.eqb "-" "-") with true. cbn [String.eqb andb]. cbv iota.
    change (-1 =? -1) with true. cbv iota. cbn [optind].
    now rewrite skipn_after_flags1.
Qed.

Lemma flags_then_users_witness :
  Forall (fun l : list flag => l <> []) [[FlagB; FlagI]; [FlagI]]
  /\ operands ["alice"; "bob"]
  /\ options_parse ["actspy"; "-bi"; "-i"; "alice"; "bob"] =
       Some (0, mk_options 1 1 0 1 (Some ["alice"; "bob"]), []).
Proof.
  assert (H1 : Forall (fun l : list flag => l <> []) [[FlagB; FlagI]; [FlagI]])
    by (repeat constructor; discriminate).
  assert (H2 : operands ["alice"; "bob"]) by reflexivity.
  split; [exact H1|]. split; [exact H2|].
  exact (proj1 (flags_then_users "actspy" [[FlagB; FlagI]; [FlagI]] ["alice"; "bob"] H1) H2).
Defined.

(** X13. After groups of flags, -h ends the parsing with the result 1 and
    the usage text named after the program: what follows on the command
    line is not looked at, and [main] ends with EXIT_FAILURE without
    polling. *)
Theorem help_after_flags (ctime : Z -> string) (prog : string)
    (clusters : list (list flag)) (more : list string) (env : environment) :
  Forall (fun l => l <> []) clusters ->
  options_parse (prog :: map flag_arg clusters ++ "-h" :: more) =
    Some (1, flags_options 1 (List.concat clusters) None, [Stdout (usage prog)])
  /\ main ctime (prog :: map flag_arg clusters ++ "-h" :: more) env =
       Exited EXIT_FAILURE (initial_state env [Stdout (usage prog)]).
Proof.
  intros Hne.
  assert (H : options_parse (prog :: map flag_arg clusters ++ "-h" :: more) =
              Some (1, flags_options 1 (List.concat clusters) None,
                    [Stdout (usage prog)])).
  { apply (after_flags prog clusters ("-h" :: more) 1); [exact Hne|].
    cbn [options_parse_loop]. unfold getopt. cbn [nextchar optind].
    rewrite nth_after_flags0. cbn [nth_error]. reflexivity. }
  split; [exact H|]. unfold main. now rewrite H.
Qed.

Lemma help_after_flags_witness :
  Forall (fun l : list flag => l <> []) [[FlagO]]
  /\ options_parse ["actspy"; "-o"; "-h"; "-x"] =
       Some (1, mk_options 1 0 1 0 None, [Stdout (usage "actspy")]).
Proof.
  assert (H1 : Forall (fun l : list flag => l <> []) [[FlagO]])
    by (repeat constructor; discriminate).
  split; [exact H1|].
  exact (proj1 (help_after_flags Example.ctime "actspy" [[FlagO]] ["-x"]
                  Example.env_vanished H1)).
Defined.

Lemma nth_after_flags2 prog clusters tl :
  nth_error (prog :: map flag_arg clusters ++ tl) (S (S (S (List.length clusters)))) =
  nth_error tl 2.
Proof. rewrite <- (nth_after_flags prog clusters tl 2). f_equal. lia. Qed.

Lemma chr_ascii c : ascii_of_N (Z.to_N (chr c)) = c.
Proof. unfold chr. rewrite N2Z.id. apply ascii_N_embedding. Qed.

(** X14. After groups of flags, an option whose letter is not one of b,
    h, i, o and t ends the parsing with the result -1 and a diagnostic
    that names the letter; the flags of its element that follow and the
    rest of the command line are not looked at, and [main] ends with
    EXIT_FAILURE without polling. *)
Theorem unknown_option_rejected (ctime : Z -> string) (prog : string)
    (clusters : list (list flag)) (c : ascii) (rest : string)
    (more : list string) (env : environment) :
  Forall (fun l => l <> []) clusters ->
  is_option_char c = false -> c <> "-"%char ->
  let argv := prog :: map flag_arg clusters ++ String "-" (String c rest) :: more in
  let msg := ("Unknown command line option -" ++ String c "." ++ nl)%string in
  options_parse argv =
    Some (-1, flags_options 1 (List.concat clusters) None, [Stderr msg])
  /\ main ctime argv env = Exited EXIT_FAILURE (initial_state env [Stderr msg]).
Proof.
  intros Hne Hc Hd argv msg.
  assert (H : options_parse argv =
              Some (-1, flags_options 1 (List.concat clusters) None, [Stderr msg])).
  { assert (Ht : (chr c =? chr "t") = false).
    { apply Z.eqb_neq. intros E. apply chr_inj in E. subst c. discriminate Hc. }
    apply (after_flags prog clusters (String "-" (String c rest) :: more) 1);
      [exact Hne|].
    cbn [options_parse_loop]. unfold getopt. cbn [nextchar optind].
    rewrite nth_after_flags0. cbn [nth_error].
    change (Ascii.eqb "-" "-") with true. cbv iota.
    apply Ascii.eqb_neq in Hd. rewrite Hd. cbn [andb].
    unfold getopt_char. unfold is_option_char in Hc.
    destruct (if Ascii.eqb c ":" then None else optstring_lookup c "bhiot:");
      [discriminate|].
    cbv beta iota zeta.
    change (chr "?" =? -1) with false.
    change (chr "?" =? chr "b") with false.
    change (chr "?" =? chr "h") with false.
    change (chr "?" =? chr "i") with false.
    change (chr "?" =? chr "o") with false.
    change (chr "?" =? chr "t") with false.
    change (chr "?" =? chr "?") with true.
    cbv iota. cbn [optopt].
    rewrite Ht, chr_ascii. reflexivity. }
  split; [exact H|]. unfold main. now rewrite H.
Qed.

Lemma unknown_option_rejected_witness :
  Forall (fun l : list flag => l <> []) [[FlagI]]
  /\ is_option_char "x" = false /\ "x"%char <> "-"%char
  /\ options_parse ["actspy"; "-i"; "-xb"; "alice"] =
       Some (-1, mk_options 1 1 0 0 None,
             [Stderr ("Unknown command line option -x." ++ nl)]).
Proof.
  assert (H1 : Forall (fun l : list flag => l <> []) [[FlagI]])
    by (repeat constructor; discriminate).
  assert (H2 : is_option_char "x" = false) by reflexivity.
  assert (H3 : "x"%char <> "-"%char) by discriminate.
  split; [exact H1|]. split; [exact H2|]. split; [exact H3|].
  exact (proj1 (unknown_option_rejected Example.ctime "actspy" [[FlagI]] "x" "b"
                  ["alice"] Example.env_vanished H1 H2 H3)).
Defined.

(** X15. After groups of flags, -t as the last element of the command
    line ends the parsing with the result -1 and the diagnostic that the
    option requires an argument, and [main] ends with EXIT_FAILURE
    without polling. *)
Theorem missing_interval_rejected (ctime : Z -> string) (prog : string)
    (clusters : list (list flag)) (env : environment) :
  Forall (fun l => l <> []) clusters ->
  let argv := prog :: map flag_arg clusters ++ ["-t"] in
  let msg := ("Option -t requires an argument." ++ nl)%string in
  options_parse argv =
    Some (-1, flags_options 1 (List.concat clusters) None, [Stderr msg])
  /\ main ctime argv env = Exited EXIT_FAILURE (initial_state env [Stderr msg]).
Proof.
  intros Hne argv msg.
  assert (H : options_parse argv =
              Some (-1, flags_options 1 (List.concat clusters) None, [Stderr msg])).
  { apply (after_flags prog clusters ["-t"] 1); [exact Hne|].
    cbn [options_parse_loop]. unfold getopt. cbn [nextchar optind].
    rewrite nth_after_flags0. cbn [nth_error].
    change (Ascii.eqb "-" "-") with true. cbv iota.
    change (Ascii.eqb "t" "-" && String.eqb "" "") with false. cbv iota.
    unfold getopt_char.
    change (if Ascii.eqb "t" ":" then None else optstring_lookup "t" "bhiot:")
      with (Some true).
    cbv iota. cbn [optind]. rewrite nth_after_flags1. cbn [nth_error].
    reflexivity. }
  split; [exact H|]. unfold main. now rewrite H.
Qed.

Lemma missing_interval_rejected_witness :
  Forall (fun l : list flag => l <> []) [[FlagI; FlagO]]
  /\ options_parse ["actspy"; "-io"; "-t"] =
       Some (-1, mk_options 1 1 1 0 None,
             [Stderr ("Option -t requires an argument." ++ nl)]).
Proof.
  assert (H1 : Forall (fun l : list flag => l <> []) [[FlagI; FlagO]])
    by (repeat constructor; discriminate).
  split; [exact H1|].
  exact (proj1 (missing_interval_rejected Example.ctime "actspy" [[FlagI; FlagO]]
                  Example.env_vanished H1)).
Defined.

(** ** The interval *)

Lemma isdigit_range d : isdigit d = true -> 48 <= chr d <= 57.
Proof.
  unfold isdigit. intros H. apply andb_true_iff in H. destruct H as [H1 H2].
  apply Z.leb_le in H1, H2. lia.
Qed.

Lemma scan_digits_app ds junk : forall acc,
  all_digits ds = true -> scan_unsigned junk = None ->
  scan_digits acc (ds ++ junk) = scan_digits acc ds.
Proof.
  induction ds as [|d t IH]; intros acc Hd Hj; simpl.
  - destruct junk as [|j junk']; [reflexivity|]. simpl in Hj |- *.
    destruct (isdigit j); [discriminate|reflexivity].
  - simpl in Hd. apply andb_true_iff in Hd. destruct Hd as [Hd Ht].
    rewrite Hd. now apply IH.
Qed.

Lemma sscanf_ld_digits ds junk :
  all_digits ds = true -> ds <> "" -> scan_unsigned junk = None ->
  sscanf_ld (ds ++ junk) = (1, Some (clamp_long (scan_digits 0 ds))).
Proof.
  intros Hd Hne Hj.
  rewrite <- (scan_digits_app ds junk 0 Hd Hj).
  destruct ds as [|d t]; [congruence|].
  simpl in Hd. apply andb_true_iff in Hd. destruct Hd as [Hd _].
  pose proof (isdigit_range d Hd) as Hr.
  cbn [append]. unfold sscanf_ld. cbn [skip_space].
  assert (Hs : isspace d = false).
  { unfold isspace. apply orb_false_iff. split.
    - apply Z.eqb_neq. lia.
    - apply andb_false_iff. right. apply Z.leb_gt. lia. }
  rewrite Hs.
  assert (H0 : (chr d =? 0) = false) by (apply Z.eqb_neq; lia).
  rewrite H0.
  assert (Hm : Ascii.eqb d "-" = false)
    by (apply Ascii.eqb_neq; intros ->; discriminate Hd).
  assert (Hp : Ascii.eqb d "+" = false)
    by (apply Ascii.eqb_neq; intros ->; discriminate Hd).
  rewrite Hm, Hp. unfold scan_unsigned. now rewrite Hd.
Qed.

(** X16. After groups of flags, -t followed by an element that starts
    with decimal digits, and then by user names, is parsed in silence:
    the interval is the number the digits write, brought into the range
    of [long], whatever text follows the digits in the element. *)
Theorem interval_digits_accepted (prog : string) (clusters : list (list flag))
    (ds junk : string) (users : list string) :
  Forall (fun l => l <> []) clusters ->
  all_digits ds = true -> ds <> "" -> scan_unsigned junk = None ->
  operands users ->
  options_parse (prog :: map flag_arg clusters ++ "-t" :: (ds ++ junk)%string :: users) =
    Some (0, flags_options (clamp_long (scan_digits 0 ds)) (List.concat clusters)
               (Some users), []).
Proof.
  intros Hne Hd Hds Hj Hu.
  apply (after_flags prog clusters ("-t" :: (ds ++ junk)%string :: users) 2);
    [exact Hne|].
  cbn [options_parse_loop]. unfold getopt at 1. cbn [nextchar optind].
  rewrite nth_after_flags0. cbn [nth_error].
  change (Ascii.eqb "-" "-") with true. cbv iota.
  change (Ascii.eqb "t" "-" && String.eqb "" "") with false. cbv iota.
  unfold getopt_char.
  change (if Ascii.eqb "t" ":" then None else optstring_lookup "t" "bhiot:")
    with (Some true).
  cbv iota. cbn [optind]. rewrite nth_after_flags1. cbn [nth_error].
  cbv beta iota zeta.
  change (chr "t" =? -1) with false.
  change (chr "t" =? chr "b") with false.
  change (chr "t" =? chr "h") with false.
  change (chr "t" =? chr "i") with false.
  change (chr "t" =? chr "o") with false.
  change (chr "t" =? chr "t") with true.
  cbv iota. cbn [optarg].
  rewrite (sscanf_ld_digits ds junk Hd Hds Hj). cbv beta iota zeta.
  change (1 =? 0) with false. cbv iota.
  rewrite getopt_at_operand;
    [|reflexivity|cbn [optind]; rewrite nth_after_flags2; now apply operands_nth].
  change (-1 =? -1) with true. cbv iota. cbn [optind optopt].
  now rewrite skipn_after_flags2.
Qed.

Lemma interval_digits_accepted_witness :
  Forall (fun l : list flag => l <> []) [[FlagI]]
  /\ all_digits "5" = true /\ "5" <> "" /\ scan_unsigned "s" = None
  /\ operands ["alice"]
  /\ options_parse ["actspy"; "-i"; "-t"; "5s"; "alice"] =
       Some (0, mk_options 5 1 0 0 (Some ["alice"]), []).
Proof.
  assert (H1 : Forall (fun l : list flag => l <> []) [[FlagI]])
    by (repeat constructor; discriminate).
  assert (H2 : all_digits "5" = true) by reflexivity.
  assert (H3 : "5" <> "") by discriminate.
  assert (H4 : scan_unsigned "s" = None) by reflexivity.
  assert (H5 : operands ["alice"]) by reflexivity.
  repeat (split; [assumption|]).
  exact (interval_digits_accepted "actspy" [[FlagI]] "5" "s" ["alice"] H1 H2 H3 H4 H5).
Defined.

(** X17. The interval may be written in the element of -t itself: after
    groups of flags and before user names, "-tTIME" is parsed as "-t"
    followed by "TIME", with the same result, options and diagnostic. *)
Theorem attached_interval (prog : string) (clusters : list (list flag))
    (arg : string) (users : list string) :
  Forall (fun l => l <> []) clusters ->
  arg <> "" -> operands users ->
  options_parse (prog :: map flag_arg clusters ++ String "-" (String "t" arg) :: users) =
  options_parse (prog :: map flag_arg clusters ++ "-t" :: arg :: users).
Proof.
  intros Hne Ha Hu.
  destruct arg as [|a arg']; [congruence|].
  set (o1 := flags_options 1 (List.concat clusters) None).
  set (txt := String a arg').
  set (o2 := match snd (sscanf_ld txt) with
             | Some v => set_poll_interval v o1
             | None => o1
             end).
  set (r := if fst (sscanf_ld txt) =? 0
            then (-1, o2, [Stderr ("Invalid timestamp option -t " ++ txt ++ "." ++ nl)])
            else (0, set_watched_users (Some users) o2, [])).
  transitivity (Some r); [|symmetry].
  - apply (after_flags prog clusters (String "-" (String "t" txt) :: users) 2);
      [exact Hne|].
    cbn [options_parse_loop]. unfold getopt at 1. cbn [nextchar optind].
    rewrite nth_after_flags0. cbn [nth_error].
    change (Ascii.eqb "-" "-") with true. cbv iota.
    change (Ascii.eqb "t" "-") with false. cbn [andb].
    unfold getopt_char.
    change (if Ascii.eqb "t" ":" then None else optstring_lookup "t" "bhiot:")
      with (Some true).
    unfold txt at 1. cbv beta iota zeta. fold txt.
    change (chr "t" =? -1) with false.
    change (chr "t" =? chr "b") with false.
    change (chr "t" =? chr "h") with false.
    change (chr "t" =? chr "i") with false.
    change (chr "t" =? chr "o") with false.
    change (chr "t" =? chr "t") with true.
    cbv iota. cbn [optarg optind]. fold o1.
    unfold r, o2. destruct (sscanf_ld txt) as [n stored]. cbn [fst snd].
    destruct (n =? 0); [reflexivity|].
    rewrite getopt_at_operand;
      [|reflexivity|cbn [optind]; rewrite nth_after_flags1; now apply operands_nth].
    change (-1 =? -1) with true. cbv iota. cbn [optind].
    now rewrite skipn_after_flags1.
  - apply (after_flags prog clusters ("-t" :: txt :: users) 2); [exact Hne|].
    cbn [options_parse_loop]. unfold getopt at 1. cbn [nextchar optind].
    rewrite nth_after_flags0. cbn [nth_error].
    change (Ascii.eqb "-" "-") with true. cbv iota.
    change (Ascii.eqb "t" "-" && String.eqb "" "") with false. cbv iota.
    unfold getopt_char.
    change (if Ascii.eqb "t" ":" then None else optstring_lookup "t" "bhiot:")
      with (Some true).
    cbv iota. cbn [optind]. rewrite nth_after_flags1. cbn [nth_error].
    cbv beta iota zeta.
    change (chr "t" =? -1) with false.
    change (chr "t" =? chr "b") with false.
    change (chr "t" =? chr "h") with false.
    change (chr "t" =? chr "i") with false.
    change (chr "t" =? chr "o") with false.
    change (chr "t" =? chr "t") with true.
    cbv iota. cbn [optarg optind]. fold o1.
    unfold r, o2. destruct (sscanf_ld txt) as [n stored]. cbn [fst snd].
    destruct (n =? 0); [reflexivity|].
    rewrite getopt_at_operand;
      [|reflexivity|cbn [optind]; rewrite nth_after_flags2; now apply operands_nth].
    change (-1 =? -1) with true. cbv iota. cbn [optind].
    now rewrite skipn_after_flags2.
Qed.

Lemma attached_interval_witness :
  Forall (fun l : list flag => l <> []) [[FlagI]]
  /\ "30" <> "" /\ operands ["alice"]
  /\ options_parse ["actspy"; "-i"; "-t30"; "alice"] =
     options_parse ["actspy"; "-i"; "-t"; "30"; "alice"].
Proof.
  assert (H1 : Forall (fun l : list flag => l <> []) [[FlagI]])
    by (repeat constructor; discriminate).
  assert (H2 : "30" <> "") by discriminate.
  assert (H3 : operands ["alice"]) by reflexivity.
  repeat (split; [assumption|]).
  exact (attached_interval "actspy" [[FlagI]] "30" ["alice"] H1 H2 H3).
Defined.

(** ** A whole cycle *)

Lemma strlen_snoc body c :
  cstring body -> chr c <> 0 ->
  strlen (body ++ String c "") = S (strlen body)
  /\ cstring (body ++ String c "").
Proof.
  intros Hb Hc. induction body as [|b t IH]; simpl.
  - apply Z.eqb_neq in Hc. rewrite Hc. split; [reflexivity|].
    split; [now apply Z.eqb_neq|exact I].
  - destruct Hb as [Hb Ht]. destruct (IH Ht) as [IH1 IH2].
    apply Z.eqb_neq in Hb. rewrite Hb, IH1. split; [reflexivity|].
    split; [now apply Z.eqb_neq|exact IH2].
Qed.

Lemma strntake_prefix body rest :
  cstring body -> strntake (strlen body) (body ++ rest) = body.
Proof.
  induction body as [|b t IH]; simpl; [now destruct rest|].
  intros [Hb Ht]. apply Z.eqb_neq in Hb. rewrite Hb. cbn [strntake].
  rewrite Hb. now rewrite IH.
Qed.

(** X18. The statement of line 154 wipes the newline off the end of what
    [ctime] returns: of a text without NUL that ends in a newline it
    leaves the text before the newline. *)
Theorem chop_newline (body : string) :
  cstring body -> chop (body ++ nl) = body.
Proof.
  intros Hb. unfold chop, nl.
  destruct (strlen_snoc body "010" Hb) as [Hl _]; [discriminate|].
  rewrite Hl. simpl Nat.sub. rewrite Nat.sub_0_r.
  now apply strntake_prefix.
Qed.

Lemma chop_newline_witness :
  cstring "Thu Jan  1 00:00:00 1970"
  /\ chop (Example.ctime 0) = "Thu Jan  1 00:00:00 1970".
Proof.
  assert (H : cstring "Thu Jan  1 00:00:00 1970")
    by (simpl; repeat split; discriminate).
  split; [exact H|].
  exact (chop_newline "Thu Jan  1 00:00:00 1970" H).
Defined.

(** X19. One cycle of a program that has a terminal and can read every
    device it probes, over records whose line read is no longer than its
    array: it takes the time, sleeps for the interval, and then writes,
    in the order of the accounting file, the report of the records that
    are shown, with the line and the owner as they are read from the
    record, judged against the time taken before the sleep and stamped
    with the rendering of that time; the cycle ends without fault once
    the sleep and the scan have passed. *)
Theorem cycle_output (ctime : Z -> string) (o : options) (mine : string)
    (users : list string) (c : cycle_env) (s : state) :
  watched_users o = Some users ->
  Forall line_fits (utmp c) ->
  (forall entry, In entry (utmp c) ->
     ut_type entry = USER_PROCESS ->
     strcmp mine (tty_path_of entry) <> 0 ->
     fs c (tty_path_of entry) <> None) ->
  exists s',
    poll_cycle ctime o (Some mine) c s = Next s'
    /\ output s' =
         output s
         ++ [Clock (clock s); Sleep (poll_interval o mod (UINT_MAX + 1))]
         ++ flat_map (fun entry =>
                        if shown o mine users (fs c) (clock s) entry
                        then report_events o (chop (ctime (clock s))) entry
                        else []) (utmp c)
    /\ clock s' = clock s + slept c + scanned c
    /\ last_poll s' = clock s.
Proof.
  intros Hu _ Hfs.
  destruct (poll_cycle_shape ctime o (Some mine) c s) as (s2 & -> & Hl & Hp & Hk & Ho).
  destruct (scan_shows_active_sessions o mine users (fs c) (utmp c) s2
              (chop (ctime (clock s))) Hu Hp Hfs) as (s3 & Hs & Hout).
  pose proof (scan_scan_frame o (Some mine) (fs c) (utmp c) s2) as (_ & F2 & _ & F4 & _).
  rewrite Hs in F2, F4 |- *. simpl in F2, F4.
  eexists. split; [reflexivity|]. simpl.
  rewrite Hout, Ho, Hl, <- app_assoc. repeat split; congruence.
Qed.

Lemma cycle_output_witness :
  let o := mk_options 1 1 0 0 (Some []) in
  let c := mk_cycle 1 0 [Example.alice; Example.bob] Example.fs_idle true in
  let s := mk_state 0 0 None (mk_stat 0 0) 50 [] in
  Forall line_fits (utmp c)
  /\ exists s',
    poll_cycle Example.ctime o (Some "/dev/pts/0") c s = Next s'
    /\ output s' =
         [Clock 50; Sleep 1;
          Stdout ("Thu Jan  1 00:00:00 1970; pts/1; alice" ++ nl);
          Stdout ("Thu Jan  1 00:00:00 1970; pts/2; bob" ++ nl)].
Proof.
  intros o c s.
  assert (Hfs : forall entry, In entry (utmp c) ->
                  ut_type entry = USER_PROCESS ->
                  strcmp "/dev/pts/0" (tty_path_of entry) <> 0 ->
                  fs c (tty_path_of entry) <> None)
    by (intros e [<-|[<-|[]]] _ _; discriminate).
  assert (Hfit : Forall line_fits (utmp c))
    by (repeat constructor; unfold line_fits, UT_LINESIZE; simpl; lia).
  split; [exact Hfit|].
  destruct (cycle_output Example.ctime o "/dev/pts/0" [] c s eq_refl Hfit Hfs)
    as (s' & H1 & H2 & _).
  exists s'. split; [exact H1|exact H2].
Defined.

(** ** Faults *)

Lemma scan_entry_fault o tty fs entry s s' :
  scan_entry o tty fs entry s = Fault s' ->
  watched_users o <> None -> last_poll_string s <> None ->
  tty = None /\ ut_type entry = USER_PROCESS.
Proof.
  unfold scan_entry.
  destruct (ut_type entry =? USER_PROCESS) eqn:Et; simpl negb; cbv iota; [|discriminate].
  apply Z.eqb_eq in Et.
  destruct tty as [mine|]; [|auto].
  destruct (strcmp mine (tty_path_of entry) =? 0); [discriminate|].
  assert (Hl : last_poll_string (stat fs (tty_path_of entry) s) = last_poll_string s)
    by (unfold stat; destruct (fs _); reflexivity).
  destruct (reportable _ _ _); [|discriminate].
  destruct (watched_users o) as [users|]; [|congruence].
  destruct (user_skipped users (ut_user entry)); [discriminate|].
  unfold report. rewrite Hl.
  destruct (last_poll_string s); [discriminate|congruence].
Qed.

Lemma scan_fault o tty fs entries : forall s s',
  scan o tty fs entries s = Fault s' ->
  watched_users o <> None -> last_poll_string s <> None ->
  tty = None /\ exists entry, In entry entries /\ ut_type entry = USER_PROCESS.
Proof.
  induction entries as [|entry rest IH]; intros s s'; cbn [scan]; [discriminate|].
  pose proof (scan_entry_frame o tty fs entry s) as (_ & _ & F3 & _).
  destruct (scan_entry o tty fs entry s) as [s1|s1] eqn:E; cbn [bind].
  - simpl in F3. intros H Hu Hs.
    destruct (IH s1 s' H Hu) as (Ht & e & He & Hp); [congruence|].
    split; [exact Ht|]. exists e. split; [now right|exact Hp].
  - intros _ Hu Hs. destruct (scan_entry_fault _ _ _ _ _ _ E Hu Hs) as [Ht Hp].
    split; [exact Ht|]. exists entry. split; [now left|exact Hp].
Qed.

(** X20. The only fault of a run is the comparison with a NULL terminal
    name: when a run of [main] ends in a fault, [ttyname] had returned
    NULL and the accounting file of some cycle held a user process.  A
    program with a terminal name never faults. *)
Theorem fault_needs_missing_terminal (ctime : Z -> string) (argv : list string)
    (env : environment) (s' : state) :
  main ctime argv env = Crashed s' ->
  ttyname_stdout env = None
  /\ exists c entry,
       In c (cycles env) /\ In entry (utmp c) /\ ut_type entry = USER_PROCESS.
Proof.
  unfold main.
  destruct (options_parse argv) as [[[r o] out]|] eqn:E;
    [|exfalso; exact (options_parse_returns argv E)].
  pose proof (options_parse_loop_outcomes _ _ _ _ _ _ _ E eq_refl) as Hp.
  destruct Hp as [(-> & -> & [n Hu])|[(-> & _)|(-> & _)]]; simpl; try discriminate.
  generalize (initial_state env []).
  induction (cycles env) as [|c rest IH]; intros s; simpl; [discriminate|].
  destruct (poll_cycle_shape ctime o (ttyname_stdout env) c s)
    as (s2 & Hc & _ & Hs2 & _).
  destruct (poll_cycle ctime o (ttyname_stdout env) c s) as [s1|s1].
  - destruct (signal_caught_sigint s1 =? 0); [|discriminate].
    intros H. destruct (IH s1 H) as (Ht & c' & e & Hc' & He).
    split; [exact Ht|]. exists c', e. split; [now right|exact He].
  - intros _.
    destruct (scan o (ttyname_stdout env) (fs c) (utmp c) s2) as [s3|s3] eqn:Es;
      [discriminate|].
    destruct (scan_fault _ _ _ _ _ _ Es) as (Ht & e & He & Hp);
      [congruence|congruence|].
    split; [exact Ht|]. exists c, e. split; [now left|]. split; assumption.
Qed.

Lemma fault_needs_missing_terminal_witness :
  exists s',
    main Example.ctime ["actspy"; "-i"] Example.env_no_tty = Crashed s'
    /\ ttyname_stdout Example.env_no_tty = None.
Proof.
  eexists. split; [vm_compute; reflexivity|].
  apply (fault_needs_missing_terminal Example.ctime ["actspy"; "-i"]
           Example.env_no_tty _ eq_refl).
Defined.

(** ** The owner as it is read from the record *)

(** X21. The owner of a session is the C string that starts at [ut_user].
    A name shorter than UT_NAMESIZE is read as it is, and the session
    passes a filter that names it.  A name that fills the array has no
    NUL after it: the owner read goes on with [ut_host], and when the
    host is not empty the session does not pass the filter that names
    its owner. *)
Theorem owner_read_from_record (type : Z) (line id user host tail : string) :
  cstring user ->
  let entry := mk_utmpx_record type line id user host tail in
  ((String.length user < UT_NAMESIZE)%nat ->
     ut_user entry = user /\ user_passes [user] (ut_user entry) = true)
  /\ (String.length user = UT_NAMESIZE ->
        ut_user entry =
          (user ++ until_nul (array UT_HOSTSIZE host ++ array 32 tail))%string
        /\ (until_nul (array UT_HOSTSIZE host) <> EmptyString ->
            user_passes [user] (ut_user entry) = false)).
Proof.
  intros Hc entry. split.
  - intros Hl.
    assert (E : ut_user entry = user)
      by (unfold ut_user, memory_from_user, entry; cbn [ut_user_array];
          now apply until_nul_array_short).
    split; [exact E|]. rewrite E. unfold user_passes, user_skipped.
    cbn [strstrlist]. now rewrite strcmp_refl.
  - intros Hl.
    assert (E : ut_user entry =
                (user ++ until_nul (array UT_HOSTSIZE host ++ array 32 tail))%string)
      by (unfold ut_user, memory_from_user, entry;
          cbn [ut_user_array ut_host_array ut_tail_array];
          now apply until_nul_array_full).
    split; [exact E|]. intros Hh.
    unfold user_passes, user_skipped. cbn [strstrlist].
    destruct (strcmp user (ut_user entry) =? 0) eqn:Es; [|reflexivity].
    exfalso. apply Z.eqb_eq in Es.
    apply strcmp_eq in Es; [|exact Hc|apply until_nul_cstring].
    rewrite E in Es. apply Hh. unfold UT_HOSTSIZE in *.
    apply (until_nul_first 255 host (array 32 tail)).
    destruct (until_nul (array 256 host ++ array 32 tail)) as [|c t];
      [reflexivity|].
    exfalso. assert (Hn : String.length user =
                          String.length (user ++ String c t)) by now rewrite <- Es.
    rewrite append_length in Hn. simpl in Hn. lia.
Qed.

Lemma owner_read_from_record_witness :
  let name := "abcdefghijklmnopqrstuvwxyz012345" in
  let entry := mk_utmpx_record USER_PROCESS "pts/3" "" name "example.org" "" in
  cstring name /\ String.length name = UT_NAMESIZE
  /\ until_nul (array UT_HOSTSIZE "example.org") <> EmptyString
  /\ ut_user entry = (name ++ "example.org")%string
  /\ user_passes [name] (ut_user entry) = false.
Proof.
  intros name entry.
  assert (H1 : cstring name) by (simpl; repeat split; discriminate).
  assert (H2 : String.length name = UT_NAMESIZE) by reflexivity.
  assert (H3 : until_nul (array UT_HOSTSIZE "example.org") <> EmptyString)
    by (vm_compute; discriminate).
  split; [exact H1|]. split; [exact H2|]. split; [exact H3|].
  destruct (proj2 (owner_read_from_record USER_PROCESS "pts/3" "" name
                     "example.org" "" H1) H2) as [E P].
  split; [exact E|exact (P H3)].
Defined.
